(** * NewsBytes: the topic-selection sessions and the digest pipeline of
      [src/index.js], embedded in Rocq.

    The bot keeps two JavaScript [Map]s ([userPreferences] and
    [selectionSession]), fetches one RSS feed per chosen topic, merges the
    items, sorts them newest first, keeps eight and renders one Markdown
    message.  The handlers are modelled in a small monad that threads the two
    maps, records every outward call in a trace and carries promise
    rejections. *)

From Stdlib Require Import List ZArith Lia Bool Arith String Ascii.
From Stdlib Require Import Permutation Sorted.
Import ListNotations.
Open Scope string_scope.
Open Scope list_scope.

Set Implicit Arguments.

(* ================================================================== *)
(** * Part I: the model *)
(* ================================================================== *)

(** ** Strings

    A string is the sequence of the bytes of its UTF-8 encoding. *)

(** The line feed written [\n] in the source. *)
Definition nl : string := String "010"%char EmptyString.

(** [Array.prototype.join(sep)]. *)
Fixpoint join (sep : string) (l : list string) : string :=
  match l with
  | [] => ""
  | [x] => x
  | x :: l' => (x ++ sep ++ join sep l')%string
  end.

(** [s.startsWith(p)], returning what follows the prefix. *)
Fixpoint strip_prefix (p s : string) : option string :=
  match p, s with
  | EmptyString, _ => Some s
  | String a p', String b s' =>
      if Ascii.eqb a b then strip_prefix p' s' else None
  | String _ _, EmptyString => None
  end.

(** ** JavaScript [Set] of strings

    A [Set] iterates in insertion order, and [Array.from] exposes that order,
    so a set is the list of its members, oldest insertion first. *)
Module JsSet.

Definition t := list string.

Definition empty : t := [].

Definition has (x : string) (s : t) : bool := existsb (String.eqb x) s.

Definition add (x : string) (s : t) : t := if has x s then s else s ++ [x].

Definition delete (x : string) (s : t) : t :=
  filter (fun y => negb (String.eqb x y)) s.

Definition size (s : t) : nat := List.length s.

(** [new Set(iterable)]. *)
Definition of_list (l : list string) : t :=
  fold_left (fun s x => add x s) l empty.

(** [Array.from(set)]. *)
Definition to_list (s : t) : list string := s.

(** Same members, whatever the insertion order. *)
Definition equal (a b : t) : Prop := forall x, has x a = has x b.

End JsSet.

(** ** JavaScript [Map] keyed by chat id

    A [Map] keeps its entries in insertion order; [set] on a present key
    overwrites the value in place, on a new key it appends. *)
Module JsMap.

Section WithValue.
Variable V : Type.

Definition t := list (Z * V).

Definition empty : t := [].

Fixpoint get (k : Z) (m : t) : option V :=
  match m with
  | [] => None
  | (k', v) :: m' => if Z.eqb k k' then Some v else get k m'
  end.

Definition has (k : Z) (m : t) : bool :=
  match get k m with Some _ => true | None => false end.

Definition set (k : Z) (v : V) (m : t) : t :=
  if has k m
  then map (fun e => if Z.eqb k (fst e) then (k, v) else e) m
  else m ++ [(k, v)].

Definition delete (k : Z) (m : t) : t :=
  filter (fun e => negb (Z.eqb k (fst e))) m.

Definition entries (m : t) : list (Z * V) := m.

Definition keys (m : t) : list Z := map fst m.

End WithValue.

Arguments empty {V}.

End JsMap.

(** ** Data *)

(** An item of a parsed feed.  [pubDate] stands for the time value of
    [new Date(item.pubDate)]: [Some ms] for a date that parses, [None] for
    an Invalid Date, whose time value is NaN. *)
Record item := mkItem {
  title : string;
  link : string;
  pubDate : option Z
}.

Record article := mkArticle {
  topic : string;
  heading : string;
  url : string;
  date : option Z
}.

(** The result of an awaited promise. *)
Inductive outcome (A : Type) : Type :=
| Resolved (a : A)
| Rejected (e : string).

Arguments Resolved {A} a.
Arguments Rejected {A} e.

Inductive parse_mode := Plain | Markdown.

Record button := mkButton {
  label : string;
  callback_data : string
}.

Definition keyboard := list (list button).

(** Every call that leaves the process. *)
Inductive event :=
| ParseURL (feedUrl : string)
| ConsoleError (msg : string) (e : string)
| ConsoleLog (msg : string)
| SendMessage (chatId : Z) (text : string) (mode : parse_mode)
| Reply (chatId : Z) (text : string) (markup : keyboard)
| EditMessageReplyMarkup (chatId : Z) (markup : keyboard)
| EditMessageText (chatId : Z) (text : string)
| AnswerCbQuery (chatId : Z) (notice : option string).

(** What the process runs against: the feed parser, the bot transport and
    the JavaScript engine.  The parser and the transport answer a call by
    resolving or rejecting; every handler is run against arbitrary
    answering functions.  The feeds of one digest are requested together:
    [settled_at] tells when the answer to each request arrives (a smaller
    number is earlier).  [engine_order] is the order the engine gives an
    array it is asked to sort with comparisons that are not consistent, as
    the rank it gives each position of the array. *)
Record env := mkEnvAt {
  parseURL : string -> outcome (list item);
  telegram : event -> outcome unit;
  settled_at : string -> nat;
  engine_order : list article -> nat -> nat
}.

(** Collaborators whose answers arrive in the order of the requests, on an
    engine that leaves such an array as it is. *)
Definition mkEnv (parseURL : string -> outcome (list item))
  (telegram : event -> outcome unit) : env :=
  mkEnvAt parseURL telegram (fun _ => 0) (fun _ position => position).

(** The [--- STATE ---] block. *)
Record store := mkStore {
  userPreferences : JsMap.t (list string);
  selectionSession : JsMap.t JsSet.t
}.

Definition initial_store : store :=
  {| userPreferences := JsMap.empty; selectionSession := JsMap.empty |}.

Definition AVAILABLE_TOPICS : list string :=
  [ "Technology"; "Business"; "Sports"; "Health";
    "Science"; "Entertainment"; "Crypto"; "World News" ].

(** ** The handler monad

    A computation reads and writes the store, appends to the trace and ends
    resolved or rejected.  A rejection keeps the writes made before it. *)
Definition M (A : Type) : Type := store -> outcome A * store * list event.

Definition ret {A} (a : A) : M A := fun s => (Resolved a, s, []).

Definition throw {A} (e : string) : M A := fun s => (Rejected e, s, []).

Definition bind {A B} (m : M A) (k : A -> M B) : M B :=
  fun s =>
    match m s with
    | (Resolved a, s1, t1) =>
        match k a s1 with (r, s2, t2) => (r, s2, t1 ++ t2) end
    | (Rejected e, s1, t1) => (Rejected e, s1, t1)
    end.

(** [try { m } catch (e) { h e }]. *)
Definition try_catch {A} (m : M A) (h : string -> M A) : M A :=
  fun s =>
    match m s with
    | (Resolved a, s1, t1) => (Resolved a, s1, t1)
    | (Rejected e, s1, t1) =>
        match h e s1 with (r, s2, t2) => (r, s2, t1 ++ t2) end
    end.

Definition read : M store := fun s => (Resolved s, s, []).

Definition write (f : store -> store) : M unit :=
  fun s => (Resolved tt, f s, []).

Definition emit (ev : event) : M unit := fun s => (Resolved tt, s, [ev]).

(** A call whose promise is awaited: it is recorded, and its outcome is the
    collaborator's. *)
Definition call {A} (ev : event) (answer : outcome A) : M A :=
  fun s => (answer, s, [ev]).

Declare Scope js_scope.
Delimit Scope js_scope with js.
Notation "x <- m ;; k" := (bind m (fun x => k))
  (at level 100, m at next level, right associativity) : js_scope.
Notation "m ;; k" := (bind m (fun _ => k))
  (at level 100, right associativity) : js_scope.
Open Scope js_scope.

Definition result_of {A} (r : outcome A * store * list event) : outcome A :=
  fst (fst r).
Definition store_of {A} (r : outcome A * store * list event) : store :=
  snd (fst r).
Definition trace_of {A} (r : outcome A * store * list event) : list event :=
  snd r.

(** Awaiting a promise whose outcome is known: nothing is recorded. *)
Definition await {A} (answer : outcome A) : M A := fun s => (answer, s, []).

(** The promise of an async function that has run up to its first [await]:
    the promise it awaits settles at time [settles], and [resume] is what
    the function does from there. *)
Record pending (A : Type) := mkPending {
  settles : nat;
  resume : M A
}.

Arguments mkPending {A} settles resume.
Arguments settles {A} p.
Arguments resume {A} p.

(** [arr.map(f)] for an async [f]: the calls are made one after the other,
    each running up to its first [await]. *)
Fixpoint Array_map {A B} (f : A -> M B) (arr : list A) : M (list B) :=
  match arr with
  | [] => ret []
  | x :: arr' => y <- f x ;; ys <- Array_map f arr' ;; ret (y :: ys)
  end.

(** A list put in the order of the ranks of its elements, and in the order
    of the list for equal ranks.  Promises settle in the order of their
    times. *)
Fixpoint insert_by_rank {B} (rank : B -> nat) (x : B) (l : list B) : list B :=
  match l with
  | [] => [x]
  | y :: l' =>
      if (rank x <=? rank y)%nat
      then x :: y :: l'
      else y :: insert_by_rank rank x l'
  end.

Definition by_rank {B} (rank : B -> nat) (l : list B) : list B :=
  fold_right (insert_by_rank rank) [] l.

(** The pending functions resume one after the other; each outcome is kept
    with the position of its promise. *)
Fixpoint resume_all {A} (ps : list (nat * pending A)) (s : store)
  : list (nat * outcome A) * store * list event :=
  match ps with
  | [] => ([], s, [])
  | (i, p) :: ps' =>
      match resume p s with
      | (r, s1, t1) =>
          match resume_all ps' s1 with
          | (rs, s2, t2) => ((i, r) :: rs, s2, t1 ++ t2)
          end
      end
  end.

Definition first_rejection {A} (outs : list (nat * outcome A))
  : option string :=
  match
    find (fun o => match snd o with Rejected _ => true | Resolved _ => false end)
         outs
  with
  | Some (_, Rejected e) => Some e
  | _ => None
  end.

(** The value the promise at position [i] resolved with. *)
Definition value_at {A} (outs : list (nat * outcome A)) (i : nat) : list A :=
  match find (fun o => Nat.eqb (fst o) i) outs with
  | Some (_, Resolved a) => [a]
  | _ => []
  end.

(** [Promise.all(promises)]: every pending function resumes, in the order
    in which the promises they await settle; the result is rejected with
    the rejection that comes first in time, and otherwise resolved with the
    values in the order of [promises].  (A caller resumes at the first
    rejection, before the functions still pending: the trace does not
    interleave them.  In the source no function of the array rejects, each
    catching what it awaits.) *)
Definition Promise_all {A} (promises : list (pending A)) : M (list A) :=
  fun s =>
    let numbered := combine (seq 0 (List.length promises)) promises in
    match resume_all (by_rank (fun p => settles (snd p)) numbered) s with
    | (outs, s', tr) =>
        (match first_rejection outs with
         | Some e => Rejected e
         | None =>
             Resolved (flat_map (value_at outs) (seq 0 (List.length promises)))
         end, s', tr)
    end.

(** [for (const x of xs) await body(x)]. *)
Fixpoint for_of {A} (xs : list A) (body : A -> M unit) : M unit :=
  match xs with
  | [] => ret tt
  | x :: xs' => body x ;; for_of xs' body
  end.

(** ** Numbers *)

(** The value of [Math.ceil(8 / n)] for an array length [n]: division by
    zero gives [Infinity]. *)
Inductive number :=
| Finite (n : nat)
| Infinity.

Definition Math_ceil_8_over (n : nat) : number :=
  match n with
  | 0 => Infinity
  | _ => Finite ((8 + n - 1) / n)
  end.

(** [arr.slice(0, end)]. *)
Definition slice0 {A} (end_ : number) (arr : list A) : list A :=
  match end_ with
  | Finite k => firstn k arr
  | Infinity => arr
  end.

(** ** [Array.prototype.sort] with a comparator

    Subtracting two dates subtracts their time values; the difference is NaN
    ([None]) as soon as one of them is an Invalid Date.  Time values are
    integers, and the sort looks at the sign of the difference only, which
    the rounding of a double leaves as it is: the exact difference stands
    for it. *)
Definition date_sub (a b : option Z) : option Z :=
  match a, b with
  | Some x, Some y => Some (x - y)%Z
  | _, _ => None
  end.

(** The sort reads a NaN from the comparator as [+0]. *)
Definition sort_order {A} (comparefn : A -> A -> option Z) (a b : A) : Z :=
  match comparefn a b with
  | Some v => v
  | None => 0%Z
  end.

Fixpoint insert {A} (comparefn : A -> A -> option Z) (x : A) (l : list A)
  : list A :=
  match l with
  | [] => [x]
  | y :: l' =>
      if (sort_order comparefn x y <=? 0)%Z
      then x :: y :: l'
      else y :: insert comparefn x l'
  end.

(** A stable sort: an element stays in front of the later elements it
    does not compare greater than. *)
Definition stable_sort {A} (comparefn : A -> A -> option Z) (l : list A)
  : list A :=
  fold_right (insert comparefn) [] l.

(** A comparator is consistent on the elements of an array only if none of
    its results is NaN; for a difference of numbers, as in the source, that
    is all it takes. *)
Definition consistent {A} (comparefn : A -> A -> option Z) (l : list A)
  : bool :=
  forallb
    (fun a =>
       forallb
         (fun b => match comparefn a b with Some _ => true | None => false end)
         l)
    l.

(** The elements of [l], the positions in the order of their ranks. *)
Definition rearrange {A} (rank : nat -> nat) (l : list A) : list A :=
  map snd (by_rank (fun p => rank (fst p)) (combine (seq 0 (List.length l)) l)).

(** With a consistent comparator the language fixes the result of a sort:
    the elements in ascending order of the comparator, those that compare
    equal in their original order ([sorted_stable_unique] below), so any
    stable sort stands for the engine's.  With an inconsistent one (an
    Invalid Date among the dates) the language leaves the order to the
    engine: the result is some rearrangement of the array, [engine] says
    which. *)
Definition Array_sort {A} (engine : list A -> nat -> nat)
  (comparefn : A -> A -> option Z) (l : list A) : list A :=
  if consistent comparefn l
  then stable_sort comparefn l
  else rearrange (engine l) l.

(** ** [encodeURIComponent]

    Every byte but the unreserved characters is written [%XX].  (The
    [URIError] of a lone surrogate has no counterpart: a byte string
    holds none.) *)

Definition unreserved (c : ascii) : bool :=
  let n := nat_of_ascii c in
  ((65 <=? n)%nat && (n <=? 90)%nat) || ((97 <=? n)%nat && (n <=? 122)%nat)
  || ((48 <=? n)%nat && (n <=? 57)%nat)
  || existsb (Ascii.eqb c)
       ["-"; "_"; "."; "!"; "~"; "*"; "'"; "("; ")"]%char.

Definition hex_digit (n : nat) : ascii :=
  match n with
  | 0 => "0" | 1 => "1" | 2 => "2" | 3 => "3" | 4 => "4" | 5 => "5"
  | 6 => "6" | 7 => "7" | 8 => "8" | 9 => "9" | 10 => "A" | 11 => "B"
  | 12 => "C" | 13 => "D" | 14 => "E" | _ => "F"
  end%char.

Fixpoint encodeURIComponent (s : string) : string :=
  match s with
  | EmptyString => EmptyString
  | String c s' =>
      if unreserved c
      then String c (encodeURIComponent s')
      else
        let n := nat_of_ascii c in
        String "%" (String (hex_digit (n / 16))
                      (String (hex_digit (n mod 16)) (encodeURIComponent s')))
  end.

(** ** The digest pipeline *)

Definition feedUrl (topic : string) : string :=
  ("https://news.google.com/rss/search?q=" ++ encodeURIComponent topic
   ++ "&hl=en-IN&gl=IN&ceid=IN:en")%string.

Definition to_article (topic : string) (it : item) : article :=
  {| topic := topic; heading := title it; url := link it;
     date := pubDate it |}.

(** [(a, b) => b.date - a.date] *)
Definition newest_first (a b : article) : option Z :=
  date_sub (date b) (date a).

Section Handlers.

Variable E : env.

(** The body of [topics.map(async (topic) => ...)] from its [await] on:
    the rest of the [try] block, or the [catch] block. *)
Definition fetchTopic_resumed (storiesPerTopic : number) (topic : string)
  : M (list article) :=
  try_catch
    (feed <- await (parseURL E (feedUrl topic)) ;;
     ret (map (to_article topic) (slice0 storiesPerTopic feed)))
    (fun e =>
       emit (ConsoleError ("Error fetching " ++ topic ++ ":")%string e) ;;
       ret []).

(** The body of [topics.map(async (topic) => ...)]: the request is made
    when the function is called, and the function waits for the answer. *)
Definition fetchTopic (storiesPerTopic : number) (topic : string)
  : M (pending (list article)) :=
  emit (ParseURL (feedUrl topic)) ;;
  ret (mkPending (settled_at E (feedUrl topic))
                 (fetchTopic_resumed storiesPerTopic topic)).

Definition fetchMixedNews (topics : list string) : M (list article) :=
  let storiesPerTopic := Math_ceil_8_over (List.length topics) in
  promises <- Array_map (fetchTopic storiesPerTopic) topics ;;
  results <- Promise_all promises ;;
  let allArticles :=
    fold_left (fun acc articles => acc ++ articles) results [] in
  let allArticles :=
    Array_sort (engine_order E) newest_first allArticles in
  ret (firstn 8 allArticles).

Definition renderTelegramMessage (newsData : list article)
  (topics : list string) : string :=
  match newsData with
  | [] => "⚠️ No news found right now."
  | _ :: _ =>
      let message := ("☕ **Your Daily Digest**" ++ nl)%string in
      let message :=
        (message ++ "_Topics: " ++ join ", " topics ++ "_" ++ nl ++ nl)%string in
      let message :=
        fold_left
          (fun message item =>
             let message :=
               (message ++ "🔹 *" ++ heading item ++ "*" ++ nl)%string in
             (message ++ "[Read more](" ++ url item ++ ")" ++ nl ++ nl)%string)
          newsData message in
      (message ++ "📅 _You will receive this daily at 9:00 AM._")%string
  end.

Definition sendMessage (chatId : Z) (text : string) (mode : parse_mode)
  : M unit :=
  call (SendMessage chatId text mode) (telegram E (SendMessage chatId text mode)).

Definition sendDigestToUser (chatId : Z) : M unit :=
  s <- read ;;
  match JsMap.get chatId (userPreferences s) with
  | None => sendMessage chatId "⚠️ Use /update to setup your topics." Plain
  | Some topics =>
      if Nat.eqb (List.length topics) 0
      then sendMessage chatId "⚠️ Use /update to setup your topics." Plain
      else
        sendMessage chatId "🔍 Fetching latest headlines..." Plain ;;
        newsData <- fetchMixedNews topics ;;
        let finalMessage := renderTelegramMessage newsData topics in
        sendMessage chatId finalMessage Markdown
  end.

(** ** Keyboard and menus *)

(** The loop [for (i = 0; i < buttons.length; i += 2)
    rows.push(buttons.slice(i, i + 2))]. *)
Fixpoint rows_of_two (buttons : list button) : list (list button) :=
  match buttons with
  | [] => []
  | [b] => [[b]]
  | b1 :: b2 :: rest => [b1; b2] :: rows_of_two rest
  end.

Definition getTopicKeyboard (selectedTopics : JsSet.t) : keyboard :=
  let buttons :=
    map (fun topic =>
           let isSelected := JsSet.has topic selectedTopics in
           mkButton (if isSelected then ("✅ " ++ topic)%string else topic)
                    ("toggle_" ++ topic)%string)
        AVAILABLE_TOPICS in
  rows_of_two buttons
  ++ [[mkButton "🚀 Done & Fetch News" "done_selection"]].

(** [ctx.reply] is not awaited: the call is made and its outcome dropped. *)
Definition showMenu (chatId : Z) : M unit :=
  s <- read ;;
  let existingTopics :=
    match JsMap.get chatId (userPreferences s) with
    | Some topics => topics
    | None => []
    end in
  let initialSet := JsSet.of_list existingTopics in
  write (fun s =>
           {| userPreferences := userPreferences s;
              selectionSession :=
                JsMap.set chatId initialSet (selectionSession s) |}) ;;
  emit (Reply chatId "⚙️ Configure Your Feed" (getTopicKeyboard initialSet)).

(** The handler of [bot.action(/^toggle_(.+)$/, ...)], [topic] being
    [ctx.match[1]].  The set held by the session is only ever reached through
    the session map, so mutating it in place and storing the new value are
    the same. *)
Definition toggle_action (chatId : Z) (topic : string) : M unit :=
  s <- read ;;
  let selected :=
    match JsMap.get chatId (selectionSession s) with
    | Some selected => selected
    | None => JsSet.empty
    end in
  let selected :=
    if JsSet.has topic selected
    then JsSet.delete topic selected
    else JsSet.add topic selected in
  write (fun s =>
           {| userPreferences := userPreferences s;
              selectionSession :=
                JsMap.set chatId selected (selectionSession s) |}) ;;
  try_catch
    (call (EditMessageReplyMarkup chatId (getTopicKeyboard selected))
          (telegram E (EditMessageReplyMarkup chatId (getTopicKeyboard selected))))
    (fun _ => ret tt) ;;
  call (AnswerCbQuery chatId None) (telegram E (AnswerCbQuery chatId None)).

Definition answerCbQuery (chatId : Z) (notice : option string) : M unit :=
  call (AnswerCbQuery chatId notice) (telegram E (AnswerCbQuery chatId notice)).

(** The handler of [bot.action("done_selection", ...)]. *)
Definition done_selection (chatId : Z) : M unit :=
  s <- read ;;
  match JsMap.get chatId (selectionSession s) with
  | None => answerCbQuery chatId (Some "Select at least one!")
  | Some selected =>
      if Nat.eqb (JsSet.size selected) 0
      then answerCbQuery chatId (Some "Select at least one!")
      else
        write (fun s =>
                 {| userPreferences :=
                      JsMap.set chatId (JsSet.to_list selected)
                                (userPreferences s);
                    selectionSession := selectionSession s |}) ;;
        write (fun s =>
                 {| userPreferences := userPreferences s;
                    selectionSession :=
                      JsMap.delete chatId (selectionSession s) |}) ;;
        call (EditMessageText chatId "✅ Preferences Updated!")
             (telegram E (EditMessageText chatId "✅ Preferences Updated!")) ;;
        sendDigestToUser chatId
  end.

(** ** Scheduler: the callback of [cron.schedule('0 9 * * *', ...)] *)
Definition daily_job : M unit :=
  emit (ConsoleLog "⏰ Running daily digest job at 9 AM...") ;;
  s <- read ;;
  for_of (JsMap.entries (userPreferences s))
         (fun entry => sendDigestToUser (fst entry)).

(** ** Dispatch *)

(** The [.] of a regular expression matches anything but a line terminator:
    LF, CR, U+2028 and U+2029 (bytes E2 80 A8 and E2 80 A9). *)
Fixpoint has_line_terminator (s : string) : bool :=
  match s with
  | EmptyString => false
  | String c s' =>
      Ascii.eqb c "010" || Ascii.eqb c "013"
      || match s' with
         | String c2 (String c3 _) =>
             Ascii.eqb c "226" && Ascii.eqb c2 "128"
             && (Ascii.eqb c3 "168" || Ascii.eqb c3 "169")
         | _ => false
         end
      || has_line_terminator s'
  end.

(** [data.match(/^toggle_(.+)$/)], giving the captured group. *)
Definition match_toggle (data : string) : option string :=
  match strip_prefix "toggle_" data with
  | Some rest =>
      if negb (String.eqb rest "") && negb (has_line_terminator rest)
      then Some rest
      else None
  | None => None
  end.

Inductive update :=
| CommandStart (chatId : Z)
| CommandUpdate (chatId : Z)
| CallbackQuery (chatId : Z) (data : string).

(** The handlers in registration order; the first trigger that matches
    takes the update. *)
Definition handle (u : update) : M unit :=
  match u with
  | CommandStart chatId => showMenu chatId
  | CommandUpdate chatId => showMenu chatId
  | CallbackQuery chatId data =>
      match match_toggle data with
      | Some topic => toggle_action chatId topic
      | None =>
          if String.eqb data "done_selection"
          then done_selection chatId
          else ret tt
      end
  end.

End Handlers.

(** ** Vocabulary of the properties *)

(** [a >= b] on time values: false as soon as one side is NaN. *)
Definition date_geb (a b : option Z) : bool :=
  match a, b with
  | Some x, Some y => (y <=? x)%Z
  | _, _ => false
  end.

Definition not_older (a b : article) : Prop :=
  date_geb (date a) (date b) = true.

(** Sorted non-increasing by publish timestamp: every article is at least
    as recent as every article after it. *)
Definition newest_first_sorted (l : list article) : Prop :=
  StronglySorted not_older l.

Definition valid_date (a : article) : Prop := date a <> None.

(** The articles of one time value, in the order they have in the list. *)
Definition dated (d : Z) (l : list article) : list article :=
  filter (fun a =>
            match date a with
            | Some x => Z.eqb x d
            | None => false
            end) l.

(** What one topic contributes: the first [storiesPerTopic] items of its
    feed, or nothing when its fetch was rejected. *)
Definition topic_articles (E : env) (storiesPerTopic : number)
  (topic : string) : list article :=
  match parseURL E (feedUrl topic) with
  | Resolved feed => map (to_article topic) (slice0 storiesPerTopic feed)
  | Rejected _ => []
  end.

(** The articles gathered from all topics, before the sort. *)
Definition gathered (E : env) (topics : list string) : list article :=
  flat_map (topic_articles E (Math_ceil_8_over (List.length topics))) topics.

Definition fetch_succeeds (E : env) (topic : string) : bool :=
  match parseURL E (feedUrl topic) with
  | Resolved _ => true
  | Rejected _ => false
  end.

(** What the [catch] block of one topic logs: a line when its fetch was
    rejected. *)
Definition fetch_error (E : env) (topic : string) : list event :=
  match parseURL E (feedUrl topic) with
  | Resolved _ => []
  | Rejected e => [ConsoleError ("Error fetching " ++ topic ++ ":")%string e]
  end.

(** The outward calls of [fetchMixedNews]: the requests, in the order of
    the topics, then the lines logged as the rejections arrive. *)
Definition fetch_calls (E : env) (topics : list string) : list event :=
  map (fun topic => ParseURL (feedUrl topic)) topics
  ++ flat_map (fetch_error E)
       (by_rank (fun topic => settled_at E (feedUrl topic)) topics).

(** The feeds answered for the topics hold dated items only: every
    [pubDate] of theirs parses. *)
Definition dated_feeds (E : env) (topics : list string) : Prop :=
  forall topic feed,
    In topic topics -> parseURL E (feedUrl topic) = Resolved feed ->
    Forall (fun it => pubDate it <> None) feed.

(** The feed URLs requested in a trace, in order. *)
Fixpoint requests (tr : list event) : list string :=
  match tr with
  | [] => []
  | ParseURL u :: tr' => u :: requests tr'
  | _ :: tr' => requests tr'
  end.

(** The set a toggle works on: [selectionSession.get(chatId) || new Set()]. *)
Definition session_of (s : store) (chatId : Z) : JsSet.t :=
  match JsMap.get chatId (selectionSession s) with
  | Some selected => selected
  | None => JsSet.empty
  end.

(** One toggle of [t] on a set. *)
Definition toggled (t : string) (selected : JsSet.t) : JsSet.t :=
  if JsSet.has t selected
  then JsSet.delete t selected
  else JsSet.add t selected.

(** The user has nothing selected: no session, or a session of size 0
    ([!selected || selected.size === 0]). *)
Definition nothing_selected (s : store) (chatId : Z) : Prop :=
  match JsMap.get chatId (selectionSession s) with
  | None => True
  | Some selected => JsSet.size selected = 0
  end.

(** The send pipeline ran for [chatId]: the trace holds a message sent to
    that chat ([sendDigestToUser] starts with one on every path). *)
Definition sent_to (chatId : Z) (ev : event) : bool :=
  match ev with
  | SendMessage c _ _ => Z.eqb c chatId
  | _ => false
  end.

Definition invoked_for (chatId : Z) (tr : list event) : bool :=
  existsb (sent_to chatId) tr.

(** How many times [needle] occurs in [hay]: the positions of [hay] at
    which [needle] can be read. *)
Fixpoint occurrences (needle hay : string) : nat :=
  (if String.prefix needle hay then 1 else 0)
  + match hay with
    | EmptyString => 0
    | String _ hay' => occurrences needle hay'
    end.

(** [hay] contains [needle]. *)
Definition contains (hay needle : string) : Prop :=
  exists pre post, hay = (pre ++ needle ++ post)%string.

(** The two lines [renderTelegramMessage] writes for one article. *)
Definition article_block (a : article) : string :=
  ("🔹 *" ++ heading a ++ "*" ++ nl
   ++ "[Read more](" ++ url a ++ ")" ++ nl ++ nl)%string.

(** One block per article, in the order of the digest. *)
Fixpoint digest_blocks (newsData : list article) : string :=
  match newsData with
  | [] => ""
  | a :: rest => (article_block a ++ digest_blocks rest)%string
  end.

Definition digest_header (topics : list string) : string :=
  ("☕ **Your Daily Digest**" ++ nl
   ++ "_Topics: " ++ join ", " topics ++ "_" ++ nl ++ nl)%string.

Definition digest_footer : string :=
  "📅 _You will receive this daily at 9:00 AM._".

(** ** Operations and reachable stores *)

Inductive operation :=
| Open (chatId : Z)
| Toggle (chatId : Z) (topic : string)
| Commit (chatId : Z)
| Tick.

Definition run_operation (E : env) (op : operation) : M unit :=
  match op with
  | Open chatId => showMenu chatId
  | Toggle chatId topic => toggle_action E chatId topic
  | Commit chatId => done_selection E chatId
  | Tick => daily_job E
  end.

(** The stores the process can be in: it starts with two empty maps, and
    each operation runs against whatever the collaborators answer then. *)
Inductive reachable : store -> Prop :=
| reachable_initial : reachable initial_store
| reachable_step (E : env) (op : operation) (s : store) :
    reachable s -> reachable (store_of (run_operation E op s)).

(** A computation that leaves the store as it found it. *)
Definition preserves_store (A : Type) (m : M A) : Prop :=
  forall s, store_of (m s) = s.

(** ** Further vocabulary *)

Definition setup_hint : string := "⚠️ Use /update to setup your topics.".

Definition fetching_notice : string := "🔍 Fetching latest headlines...".

Definition no_news : string := "⚠️ No news found right now.".

(** The characters of a string. *)
Fixpoint chars (s : string) : list ascii :=
  match s with
  | EmptyString => []
  | String c s' => c :: chars s'
  end.

(** The value of a hexadecimal digit, as [hex_digit] writes them. *)
Definition hex_value (c : ascii) : nat :=
  match c with
  | "0" => 0 | "1" => 1 | "2" => 2 | "3" => 3 | "4" => 4 | "5" => 5
  | "6" => 6 | "7" => 7 | "8" => 8 | "9" => 9 | "A" => 10 | "B" => 11
  | "C" => 12 | "D" => 13 | "E" => 14 | _ => 15
  end%char.


(** Pressing topic buttons one after the other. *)
Fixpoint toggle_all (E : env) (chatId : Z) (topics : list string) (s : store)
  : store :=
  match topics with
  | [] => s
  | t :: rest =>
      toggle_all E chatId rest (store_of (toggle_action E chatId t s))
  end.

(** The callback data the buttons of a keyboard carry (they do not depend
    on what is selected). *)
Definition offered_data : list string :=
  map callback_data (List.concat (getTopicKeyboard JsSet.empty)).

(** The updates of a user who types the two commands and presses the
    buttons the bot shows. *)
Inductive offered : update -> Prop :=
| offered_start (chatId : Z) : offered (CommandStart chatId)
| offered_update (chatId : Z) : offered (CommandUpdate chatId)
| offered_press (chatId : Z) (data : string) :
    In data offered_data -> offered (CallbackQuery chatId data).

Inductive reachable_by_buttons : store -> Prop :=
| by_buttons_initial : reachable_by_buttons initial_store
| by_buttons_step (E : env) (upd : update) (s : store) :
    reachable_by_buttons s -> offered upd ->
    reachable_by_buttons (store_of (handle E upd s))
| by_buttons_tick (E : env) (s : store) :
    reachable_by_buttons s ->
    reachable_by_buttons (store_of (daily_job E s)).

(** The user an operation is about; the scheduler's tick is about none. *)
Definition user_of (op : operation) : option Z :=
  match op with
  | Open chatId => Some chatId
  | Toggle chatId _ => Some chatId
  | Commit chatId => Some chatId
  | Tick => None
  end.

(** The committed record of a user, [userPreferences.get(chatId) || []]. *)
Definition record_of (s : store) (chatId : Z) : list string :=
  match JsMap.get chatId (userPreferences s) with
  | Some topics => topics
  | None => []
  end.

(** Every topic recorded or selected in the store is one of the fixed
    topics. *)
Definition topics_available (s : store) : Prop :=
  (forall u topics,
     In (u, topics) (JsMap.entries (userPreferences s)) ->
     incl topics AVAILABLE_TOPICS)
  /\ (forall u selected,
        In (u, selected) (JsMap.entries (selectionSession s)) ->
        incl selected AVAILABLE_TOPICS).

(** ** Sample collaborators and stores, used to run the model *)
Module Samples.

Definition an_item (t : string) (d : option Z) : item :=
  mkItem t ("https://news.example/" ++ t)%string d.

Definition always_delivers : event -> outcome unit := fun _ => Resolved tt.

(** Delivery to one chat fails (the user blocked the bot). *)
Definition blocked_by (chatId : Z) : event -> outcome unit :=
  fun ev =>
    match ev with
    | SendMessage c _ _ =>
        if Z.eqb c chatId
        then Rejected "403: Forbidden: bot was blocked by the user"
        else Resolved tt
    | _ => Resolved tt
    end.

(** Feeds answered per topic; any other URL does not resolve. *)
Fixpoint feeds (l : list (string * list item)) (u : string)
  : outcome (list item) :=
  match l with
  | [] => Rejected "getaddrinfo ENOTFOUND"
  | (t, f) :: l' => if String.eqb u (feedUrl t) then Resolved f else feeds l' u
  end.

Definition crypto_dated : list item :=
  [ an_item "c1" (Some 1000%Z); an_item "c2" (Some 3000%Z);
    an_item "c3" (Some 2000%Z) ].

Definition world_dated : list item :=
  [ an_item "w1" (Some 1500%Z); an_item "w2" (Some 2500%Z) ].

Definition E_dated : env :=
  mkEnv (feeds [("Crypto", crypto_dated); ("World News", world_dated)])
        always_delivers.

(** No feed answers, and the rejection for "Health" arrives last. *)
Definition E_offline : env :=
  mkEnvAt (feeds []) always_delivers
          (fun u => if String.eqb u (feedUrl "Health") then 5 else 1)
          (fun _ position => position).

(** One story offered by the feeds of two topics. *)
Definition story_crypto : article :=
  mkArticle "Crypto" "Bitcoin rallies" "https://a.example/1" (Some 2000%Z).

Definition story_world : article :=
  mkArticle "World News" "Bitcoin rallies" "https://a.example/1" (Some 2000%Z).

Definition same_story : list article := [story_crypto; story_world].

Definition E_blocked : env :=
  mkEnv (feeds [("Crypto", crypto_dated); ("World News", world_dated)])
        (blocked_by 1).

Definition two_users : store :=
  {| userPreferences := [(1%Z, ["Crypto"]); (2%Z, ["World News"])];
     selectionSession := [] |}.

End Samples.

(* ================================================================== *)
(** * Part II: properties *)
(* ================================================================== *)

(** ** Lists and strings *)

Lemma fold_left_app_concat (A : Type) (l : list (list A)) (acc : list A) :
  fold_left (fun acc x => acc ++ x) l acc = acc ++ List.concat l.
Proof.
  revert acc. induction l as [|x l IH]; intros acc; simpl.
  - now rewrite app_nil_r.
  - rewrite IH. now rewrite app_assoc.
Qed.

Lemma firstn_In (A : Type) (n : nat) (l : list A) (x : A) :
  In x (firstn n l) -> In x l.
Proof.
  revert l. induction n as [|n IH]; intros [|y l]; simpl; try tauto.
  intros [H|H]; [now left | right; now apply IH].
Qed.

Lemma string_app_assoc (a b c : string) :
  ((a ++ b) ++ c = a ++ (b ++ c))%string.
Proof.
  induction a as [|x a IH]; simpl; [reflexivity | now rewrite IH].
Qed.

Lemma string_app_nil_r (a : string) : (a ++ "" = a)%string.
Proof.
  induction a as [|x a IH]; simpl; [reflexivity | now rewrite IH].
Qed.

(** ** The monad *)

Lemma bind_run (A B : Type) (m : M A) (k : A -> M B) (s : store)
  (a : A) (s1 : store) (t1 : list event) :
  m s = (Resolved a, s1, t1) ->
  bind m k s = (result_of (k a s1), store_of (k a s1), t1 ++ trace_of (k a s1)).
Proof.
  intros H. unfold bind. rewrite H.
  destruct (k a s1) as [[r s2] t2]. reflexivity.
Qed.

Lemma bind_reject (A B : Type) (m : M A) (k : A -> M B) (s : store)
  (e : string) (s1 : store) (t1 : list event) :
  m s = (Rejected e, s1, t1) -> bind m k s = (Rejected e, s1, t1).
Proof. intros H. unfold bind. now rewrite H. Qed.

Lemma preserves_bind (A B : Type) (m : M A) (k : A -> M B) :
  preserves_store m -> (forall a, preserves_store (k a)) ->
  preserves_store (bind m k).
Proof.
  intros Hm Hk s. unfold bind. specialize (Hm s).
  destruct (m s) as [[[a|e] s1] t1]; unfold store_of in *; simpl in *; subst.
  - specialize (Hk a s). destruct (k a s) as [[r s2] t2]. exact Hk.
  - reflexivity.
Qed.

Lemma preserves_call (A : Type) (ev : event) (r : outcome A) :
  preserves_store (call ev r).
Proof. intros s. reflexivity. Qed.

Lemma preserves_for_of (A : Type) (xs : list A) (body : A -> M unit) :
  (forall x, preserves_store (body x)) -> preserves_store (for_of xs body).
Proof.
  intros Hb. induction xs as [|x xs IH]; simpl.
  - intros s. reflexivity.
  - apply preserves_bind; [apply Hb | intros _; exact IH].
Qed.

(** ** Orders by rank *)

Section ByRank.

Variables (B C : Type).

Lemma insert_by_rank_perm (rank : B -> nat) (x : B) (l : list B) :
  Permutation (insert_by_rank rank x l) (x :: l).
Proof.
  induction l as [|y l IH]; simpl; [apply Permutation_refl|].
  destruct (rank x <=? rank y)%nat; [apply Permutation_refl|].
  apply perm_trans with (y :: x :: l); [now apply perm_skip | apply perm_swap].
Qed.

Lemma by_rank_perm (rank : B -> nat) (l : list B) :
  Permutation (by_rank rank l) l.
Proof.
  induction l as [|x l IH]; simpl; [apply perm_nil|].
  apply perm_trans with (x :: by_rank rank l);
    [apply insert_by_rank_perm | now apply perm_skip].
Qed.

Lemma insert_by_rank_map (rank : C -> nat) (g : B -> C) (x : B) (l : list B) :
  insert_by_rank rank (g x) (map g l)
  = map g (insert_by_rank (fun b => rank (g b)) x l).
Proof.
  induction l as [|y l IH]; simpl; [reflexivity|].
  destruct (rank (g x) <=? rank (g y))%nat; simpl; [reflexivity|].
  now rewrite IH.
Qed.

Lemma by_rank_map (rank : C -> nat) (g : B -> C) (l : list B) :
  by_rank rank (map g l) = map g (by_rank (fun b => rank (g b)) l).
Proof.
  induction l as [|x l IH]; [reflexivity|].
  unfold by_rank in *. cbn [map fold_right]. rewrite IH.
  apply insert_by_rank_map.
Qed.

End ByRank.

Lemma combine_seq_fst (B : Type) (l : list B) (a : nat) :
  map fst (combine (seq a (List.length l)) l) = seq a (List.length l).
Proof.
  revert a. induction l as [|x l IH]; intros a; simpl; [reflexivity|].
  now rewrite IH.
Qed.

Lemma combine_seq_snd (B : Type) (l : list B) (a : nat) :
  map snd (combine (seq a (List.length l)) l) = l.
Proof.
  revert a. induction l as [|x l IH]; intros a; simpl; [reflexivity|].
  now rewrite IH.
Qed.

(** ** The sort *)

Section Sort.

Variable A : Type.
Variable engine : list A -> nat -> nat.
Variable comparefn : A -> A -> option Z.

Lemma insert_perm (x : A) (l : list A) :
  Permutation (insert comparefn x l) (x :: l).
Proof.
  induction l as [|y l IH]; simpl.
  - apply Permutation_refl.
  - destruct (sort_order comparefn x y <=? 0)%Z.
    + apply Permutation_refl.
    + apply perm_trans with (y :: x :: l).
      * now apply perm_skip.
      * apply perm_swap.
Qed.

Lemma stable_sort_perm (l : list A) : Permutation (stable_sort comparefn l) l.
Proof.
  induction l as [|x l IH]; simpl.
  - apply perm_nil.
  - apply perm_trans with (x :: stable_sort comparefn l).
    + apply insert_perm.
    + now apply perm_skip.
Qed.

Lemma rearrange_perm (rank : nat -> nat) (l : list A) :
  Permutation (rearrange rank l) l.
Proof.
  unfold rearrange.
  apply perm_trans with (map snd (combine (seq 0 (List.length l)) l)).
  - apply Permutation_map, by_rank_perm.
  - rewrite combine_seq_snd. apply Permutation_refl.
Qed.

(** Whatever the engine does, the sorted array holds the elements of the
    array. *)
Lemma Array_sort_perm (l : list A) :
  Permutation (Array_sort engine comparefn l) l.
Proof.
  unfold Array_sort. destruct (consistent comparefn l).
  - apply stable_sort_perm.
  - apply rearrange_perm.
Qed.

Lemma Array_sort_length (l : list A) :
  List.length (Array_sort engine comparefn l) = List.length l.
Proof. apply Permutation_length, Array_sort_perm. Qed.

End Sort.

Section SortByDate.

Variable engine : list article -> nat -> nat.

(** Valid dates make the comparisons consistent. *)
Lemma consistent_valid (l : list article) :
  Forall valid_date l -> consistent newest_first l = true.
Proof.
  intros Hv. unfold consistent. apply forallb_forall. intros a Ha.
  apply forallb_forall. intros b Hb. rewrite Forall_forall in Hv.
  pose proof (Hv a Ha) as Hva. pose proof (Hv b Hb) as Hvb.
  unfold valid_date, newest_first, date_sub in *.
  destruct (date a), (date b); congruence.
Qed.

Lemma Array_sort_valid (l : list article) :
  Forall valid_date l ->
  Array_sort engine newest_first l = stable_sort newest_first l.
Proof. intros Hv. unfold Array_sort. now rewrite consistent_valid. Qed.

Lemma not_older_of_order (x y : article) :
  valid_date x -> valid_date y ->
  (sort_order newest_first x y <=? 0)%Z = true -> not_older x y.
Proof.
  unfold valid_date, sort_order, newest_first, not_older, date_sub, date_geb.
  destruct (date x) as [dx|], (date y) as [dy|]; try congruence.
  intros _ _ H. apply Z.leb_le in H. apply Z.leb_le. lia.
Qed.

Lemma not_older_of_disorder (x y : article) :
  valid_date x -> valid_date y ->
  (sort_order newest_first x y <=? 0)%Z = false -> not_older y x.
Proof.
  unfold valid_date, sort_order, newest_first, not_older, date_sub, date_geb.
  destruct (date x) as [dx|], (date y) as [dy|]; try congruence.
  intros _ _ H. apply Z.leb_gt in H. apply Z.leb_le. lia.
Qed.

Lemma not_older_trans (x y z : article) :
  not_older x y -> not_older y z -> not_older x z.
Proof.
  unfold not_older, date_geb.
  destruct (date x), (date y), (date z); try discriminate.
  intros H1 H2. apply Z.leb_le in H1, H2. apply Z.leb_le. lia.
Qed.

Lemma insert_sorted (x : article) (l : list article) :
  valid_date x -> Forall valid_date l ->
  newest_first_sorted l -> newest_first_sorted (insert newest_first x l).
Proof.
  intros Hx Hl Hs. induction Hs as [|y l Hs IH Hy]; simpl.
  - constructor; constructor.
  - inversion Hl as [|? ? Hvy Hvl]; subst.
    destruct (sort_order newest_first x y <=? 0)%Z eqn:Hc.
    + pose proof (not_older_of_order Hx Hvy Hc) as Hxy.
      constructor.
      * now constructor.
      * constructor; [exact Hxy|].
        eapply Forall_impl; [|exact Hy].
        intros z Hz. eapply not_older_trans; eassumption.
    + constructor.
      * now apply IH.
      * eapply Permutation_Forall.
        -- apply Permutation_sym, insert_perm.
        -- constructor; [|exact Hy].
           now apply not_older_of_disorder.
Qed.

Lemma stable_sort_sorted (l : list article) :
  Forall valid_date l -> newest_first_sorted (stable_sort newest_first l).
Proof.
  induction 1 as [|x l Hx Hl IH]; simpl.
  - constructor.
  - apply insert_sorted; [exact Hx | | exact IH].
    eapply Permutation_Forall; [|exact Hl].
    apply Permutation_sym, stable_sort_perm.
Qed.

Lemma Array_sort_sorted (l : list article) :
  Forall valid_date l -> newest_first_sorted (Array_sort engine newest_first l).
Proof.
  intros Hv. rewrite Array_sort_valid by exact Hv.
  now apply stable_sort_sorted.
Qed.


(** *** Stability, and the result of a consistent sort *)

Lemma In_dated (d : Z) (a : article) (l : list article) :
  In a (dated d l) <-> In a l /\ date a = Some d.
Proof.
  unfold dated. rewrite filter_In. split; intros [Hin Hd]; split; trivial.
  - destruct (date a) as [x|]; [|discriminate].
    apply Z.eqb_eq in Hd. now subst.
  - rewrite Hd. apply Z.eqb_refl.
Qed.

Lemma insert_dated (d : Z) (x : article) (l : list article) :
  dated d (insert newest_first x l) = dated d (x :: l).
Proof.
  induction l as [|y l IH]; [reflexivity|].
  cbn [insert]. destruct (sort_order newest_first x y <=? 0)%Z eqn:Hc;
    [reflexivity|].
  apply Z.leb_gt in Hc. unfold sort_order, newest_first, date_sub in Hc.
  unfold dated in *. cbn [filter] in *. rewrite IH.
  destruct (date x) as [dx|], (date y) as [dy|]; try lia.
  destruct (Z.eqb_spec dx d), (Z.eqb_spec dy d); try reflexivity. lia.
Qed.

(** Articles of equal date keep their order. *)
Lemma stable_sort_stable (d : Z) (l : list article) :
  dated d (stable_sort newest_first l) = dated d l.
Proof.
  induction l as [|x l IH]; [reflexivity|].
  cbn [stable_sort fold_right]. rewrite insert_dated.
  unfold dated in *. cbn [filter]. fold (stable_sort newest_first l).
  now rewrite IH.
Qed.

Lemma Array_sort_stable (d : Z) (l : list article) :
  Forall valid_date l ->
  dated d (Array_sort engine newest_first l) = dated d l.
Proof.
  intros Hv. rewrite Array_sort_valid by exact Hv.
  apply stable_sort_stable.
Qed.

Lemma dated_nil_inv (l : list article) :
  Forall valid_date l -> (forall d, dated d l = []) -> l = [].
Proof.
  intros Hv H. destruct l as [|y l]; [reflexivity|].
  inversion Hv as [|? ? Hy _]; subst. unfold valid_date in Hy.
  destruct (date y) as [dy|] eqn:Hd; [|congruence].
  specialize (H dy). unfold dated in H. cbn [filter] in H.
  rewrite Hd, Z.eqb_refl in H. discriminate.
Qed.

(** Two sorted arrangements with the same articles at each date, in the
    same order, are one list. *)
Lemma sorted_stable_unique (l1 l2 : list article) :
  Forall valid_date l1 -> Forall valid_date l2 ->
  newest_first_sorted l1 -> newest_first_sorted l2 ->
  (forall d, dated d l1 = dated d l2) ->
  l1 = l2.
Proof.
  revert l2. induction l1 as [|x l1 IH]; intros l2 Hv1 Hv2 Hs1 Hs2 Hd.
  - symmetry. apply dated_nil_inv; [exact Hv2|]. intros d. now rewrite <- Hd.
  - destruct l2 as [|y l2].
    + apply dated_nil_inv; [exact Hv1 | exact Hd].
    + inversion Hv1 as [|? ? Hx Hv1']; inversion Hv2 as [|? ? Hy Hv2']; subst.
      inversion Hs1 as [|? ? Hs1' Hx1]; inversion Hs2 as [|? ? Hs2' Hy2]; subst.
      unfold valid_date in Hx, Hy.
      destruct (date x) as [dx|] eqn:Hdx; [|congruence].
      destruct (date y) as [dy|] eqn:Hdy; [|congruence].
      assert (Hle1 : (dx <= dy)%Z).
      { assert (Hin : In x (dated dx (y :: l2))).
        { rewrite <- Hd. apply In_dated. split; [now left | exact Hdx]. }
        apply In_dated in Hin. destruct Hin as [[<-|Hin] _].
        - rewrite Hdx in Hdy. injection Hdy as <-. lia.
        - rewrite Forall_forall in Hy2. specialize (Hy2 x Hin).
          unfold not_older, date_geb in Hy2. rewrite Hdx, Hdy in Hy2.
          now apply Z.leb_le in Hy2. }
      assert (Hle2 : (dy <= dx)%Z).
      { assert (Hin : In y (dated dy (x :: l1))).
        { rewrite Hd. apply In_dated. split; [now left | exact Hdy]. }
        apply In_dated in Hin. destruct Hin as [[<-|Hin] _].
        - rewrite Hdx in Hdy. injection Hdy as <-. lia.
        - rewrite Forall_forall in Hx1. specialize (Hx1 y Hin).
          unfold not_older, date_geb in Hx1. rewrite Hdx, Hdy in Hx1.
          now apply Z.leb_le in Hx1. }
      assert (dy = dx) by lia. subst dy.
      pose proof (Hd dx) as Hhead. unfold dated in Hhead.
      cbn [filter] in Hhead. rewrite Hdx, Hdy, Z.eqb_refl in Hhead.
      injection Hhead as -> Htail. f_equal.
      apply IH; trivial. intros d.
      destruct (Z.eqb_spec dx d) as [<-|Hne]; [exact Htail|].
      specialize (Hd d). unfold dated in Hd. cbn [filter] in Hd.
      rewrite Hdx in Hd. apply Z.eqb_neq in Hne. now rewrite Hne in Hd.
Qed.

(** With valid dates the result of the sort is determined: whatever list
    is sorted newest first and keeps the articles of each date in their
    original order is the list [Array_sort] returns, on every engine. *)
Lemma Array_sort_determined (l l' : list article) :
  Forall valid_date l -> Forall valid_date l' ->
  newest_first_sorted l' ->
  (forall d, dated d l' = dated d l) ->
  l' = Array_sort engine newest_first l.
Proof.
  intros Hv Hv' Hs Hd. apply sorted_stable_unique; trivial.
  - eapply Permutation_Forall; [|exact Hv].
    apply Permutation_sym, Array_sort_perm.
  - now apply Array_sort_sorted.
  - intros d. now rewrite Array_sort_stable.
Qed.

End SortByDate.

(** ** The digest fetcher *)

Lemma combine_map_r (B C : Type) (g : B -> C) (idx : list nat) (l : list B) :
  combine idx (map g l) = map (fun ib => (fst ib, g (snd ib))) (combine idx l).
Proof.
  revert idx. induction l as [|x l IH]; intros [|i idx]; simpl;
    try reflexivity.
  now rewrite IH.
Qed.

Lemma flat_map_singletons (B C : Type) (f : B -> list C) (g : B -> C)
  (l : list B) :
  (forall x, In x l -> f x = [g x]) -> flat_map f l = map g l.
Proof.
  induction l as [|x l IH]; intros H; [reflexivity|].
  cbn [flat_map map]. rewrite H by now left.
  rewrite IH; [reflexivity|]. intros y Hy. apply H. now right.
Qed.

Lemma find_numbered (B C : Type) (g : nat * B -> nat * C) (N : list (nat * B))
  (i : nat) (b : B) :
  (forall ib, fst (g ib) = fst ib) ->
  NoDup (map fst N) -> In (i, b) N ->
  find (fun o => Nat.eqb (fst o) i) (map g N) = Some (g (i, b)).
Proof.
  intros Hg. induction N as [|[j c] N IH]; intros Hnd Hin; [destruct Hin|].
  cbn [map find]. rewrite Hg. cbn [fst].
  inversion Hnd as [|? ? Hj Hnd']; subst.
  destruct (Nat.eqb_spec j i) as [->|Hne].
  - destruct Hin as [Heq|Hin]; [now rewrite Heq|].
    elim Hj. apply in_map_iff. now exists (i, b).
  - destruct Hin as [Heq|Hin]; [congruence | now apply IH].
Qed.

(** [Promise.all] over functions that each resume to a value, whatever the
    store, and leave it alone: the values come in the order of the promises,
    the calls in the order in which the promises settle. *)
Lemma Promise_all_values (A B : Type) (pend : B -> pending A) (val : B -> A)
  (evs : B -> list event) (l : list B) (s : store) :
  (forall b s', resume (pend b) s' = (Resolved (val b), s', evs b)) ->
  Promise_all (map pend l) s
  = (Resolved (map val l), s,
     flat_map evs (by_rank (fun b => settles (pend b)) l)).
Proof.
  intros Hres. unfold Promise_all. rewrite length_map, combine_map_r.
  set (C := combine (seq 0 (List.length l)) l).
  rewrite (by_rank_map (fun p => settles (snd p))
             (fun ib : nat * B => (fst ib, pend (snd ib))) C).
  cbn [snd].
  set (N := by_rank (fun ib : nat * B => settles (pend (snd ib))) C).
  assert (Hrun : forall N0 s0,
            resume_all (map (fun ib : nat * B => (fst ib, pend (snd ib))) N0) s0
            = (map (fun ib : nat * B => (fst ib, Resolved (val (snd ib)))) N0,
               s0, flat_map (fun ib => evs (snd ib)) N0)).
  { induction N0 as [|[i b] N0 IH]; intros s0; [reflexivity|].
    cbn [map resume_all fst snd flat_map]. now rewrite Hres, IH. }
  rewrite Hrun.
  assert (Hnone : forall N0,
            first_rejection
              (map (fun ib : nat * B => (fst ib, Resolved (val (snd ib)))) N0)
            = None).
  { unfold first_rejection. induction N0 as [|[i b] N0 IH]; [reflexivity|].
    cbn [map find snd]. exact IH. }
  rewrite Hnone.
  assert (HN : Permutation N C) by apply by_rank_perm.
  assert (Hnd : NoDup (map fst N)).
  { eapply Permutation_NoDup;
      [apply Permutation_map, Permutation_sym, HN|].
    unfold C. rewrite combine_seq_fst. apply seq_NoDup. }
  assert (HC1 : map fst C = seq 0 (List.length l))
    by apply combine_seq_fst.
  assert (HC2 : map snd C = l) by apply combine_seq_snd.
  assert (HsN : map snd N
                = by_rank (fun b => settles (pend b)) (map snd C))
    by (symmetry; apply (by_rank_map (fun b => settles (pend b)) snd C)).
  rewrite HC2 in HsN. rewrite <- HsN, <- HC1, <- HC2.
  f_equal; [f_equal; f_equal|].
  - rewrite flat_map_concat_map, map_map, <- flat_map_concat_map.
    assert (Hval : forall ib, In ib C ->
              value_at
                (map (fun ib0 : nat * B =>
                        (fst ib0, Resolved (val (snd ib0)))) N) (fst ib)
              = [val (snd ib)]).
    { intros [i b] Hin. unfold value_at. cbn [fst snd].
      rewrite (@find_numbered B (outcome A)
                 (fun ib0 => (fst ib0, Resolved (val (snd ib0)))) N i b);
        [reflexivity | reflexivity | exact Hnd |].
      apply (Permutation_in _ (Permutation_sym HN)). exact Hin. }
    rewrite map_map. now apply flat_map_singletons.
  - rewrite flat_map_concat_map, flat_map_concat_map, map_map. reflexivity.
Qed.

Lemma fetchTopic_resumed_run (E : env) (q : number) (t : string) (s : store) :
  fetchTopic_resumed E q t s
  = (Resolved (topic_articles E q t), s, fetch_error E t).
Proof.
  unfold fetchTopic_resumed, topic_articles, fetch_error, try_catch, bind,
    await, ret, emit.
  destruct (parseURL E (feedUrl t)); reflexivity.
Qed.

Lemma Array_map_fetchTopic (E : env) (q : number) (T : list string)
  (s : store) :
  Array_map (fetchTopic E q) T s
  = (Resolved (map (fun t => mkPending (settled_at E (feedUrl t))
                               (fetchTopic_resumed E q t)) T),
     s, map (fun t => ParseURL (feedUrl t)) T).
Proof.
  induction T as [|t T IH]; [reflexivity|].
  cbn [Array_map map]. unfold bind at 1.
  unfold fetchTopic at 1, bind at 1, emit, ret.
  unfold bind at 1. rewrite IH. unfold ret. cbn [app].
  now rewrite app_nil_r.
Qed.

Lemma fetchMixedNews_run (E : env) (T : list string) (s : store) :
  fetchMixedNews E T s
  = (Resolved (firstn 8 (Array_sort (engine_order E) newest_first (gathered E T))), s,
     fetch_calls E T).
Proof.
  unfold fetchMixedNews, gathered, fetch_calls.
  set (q := Math_ceil_8_over (List.length T)).
  erewrite bind_run by apply Array_map_fetchTopic.
  erewrite bind_run
    by (apply (@Promise_all_values _ _
                 (fun t => mkPending (settled_at E (feedUrl t))
                             (fetchTopic_resumed E q t))
                 (topic_articles E q) (fetch_error E));
        intros b s'; apply fetchTopic_resumed_run).
  unfold ret, result_of, store_of, trace_of; cbn [fst snd settles].
  rewrite fold_left_app_concat, app_nil_r, !flat_map_concat_map.
  reflexivity.
Qed.

Lemma fetchMixedNews_preserves (E : env) (T : list string) :
  preserves_store (fetchMixedNews E T).
Proof. intros s. now rewrite fetchMixedNews_run. Qed.

Lemma slice0_In (A : Type) (q : number) (l : list A) (x : A) :
  In x (slice0 q l) -> In x l.
Proof. destruct q; simpl; [apply firstn_In | trivial]. Qed.

Lemma In_topic_articles (E : env) (q : number) (t : string) (a : article) :
  In a (topic_articles E q t) ->
  exists feed it,
    parseURL E (feedUrl t) = Resolved feed /\ In it feed
    /\ a = to_article t it.
Proof.
  unfold topic_articles. destruct (parseURL E (feedUrl t)) as [feed|e].
  - intros H. apply in_map_iff in H. destruct H as (it & Ha & Hit).
    exists feed, it. repeat split; [eapply slice0_In; eassumption | now symmetry].
  - intros [].
Qed.

Lemma flat_map_filter_nil (A B : Type) (f : A -> list B) (p : A -> bool)
  (l : list A) :
  (forall x, p x = false -> f x = []) ->
  flat_map f (filter p l) = flat_map f l.
Proof.
  intros H. induction l as [|x l IH]; simpl; [reflexivity|].
  destruct (p x) eqn:Hp; simpl.
  - now rewrite IH.
  - now rewrite (H x Hp), IH.
Qed.

Lemma requests_app (t1 t2 : list event) :
  requests (t1 ++ t2) = requests t1 ++ requests t2.
Proof.
  induction t1 as [|ev t1 IH]; simpl; [reflexivity|].
  destruct ev; simpl; now rewrite IH.
Qed.

Lemma requests_fetch (E : env) (T : list string) :
  requests (fetch_calls E T) = map feedUrl T.
Proof.
  unfold fetch_calls. rewrite requests_app.
  assert (H1 : requests (map (fun t => ParseURL (feedUrl t)) T)
               = map feedUrl T).
  { induction T as [|t T IH]; simpl; [reflexivity | now rewrite IH]. }
  assert (H2 : forall l, requests (flat_map (fetch_error E) l) = []).
  { induction l as [|t l IH]; simpl; [reflexivity|].
    rewrite requests_app, IH. unfold fetch_error.
    destruct (parseURL E (feedUrl t)); reflexivity. }
  now rewrite H1, H2, app_nil_r.
Qed.

(** The fetches speak to the feeds and to the console, never to a chat. *)
Lemma fetch_calls_no_message (E : env) (T : list string) (ev : event) :
  In ev (fetch_calls E T) ->
  forall c text mode, ev <> SendMessage c text mode.
Proof.
  unfold fetch_calls. intros H c text mode. apply in_app_or in H.
  destruct H as [H|H].
  - apply in_map_iff in H. destruct H as (t & <- & _). discriminate.
  - apply in_flat_map in H. destruct H as (t & _ & H).
    unfold fetch_error in H. destruct (parseURL E (feedUrl t));
      simpl in H; intuition (subst; discriminate).
Qed.

(** The failures are logged as they arrive: one line per failing topic. *)
Lemma fetch_errors_perm (E : env) (T : list string) :
  Permutation
    (flat_map (fetch_error E)
       (by_rank (fun topic => settled_at E (feedUrl topic)) T))
    (flat_map (fetch_error E) T).
Proof. apply Permutation_flat_map, by_rank_perm. Qed.

Lemma dated_feeds_gathered (E : env) (T : list string) :
  dated_feeds E T -> Forall valid_date (gathered E T).
Proof.
  intros Hd. unfold gathered. apply Forall_forall. intros a Ha.
  apply in_flat_map in Ha. destruct Ha as (t & Ht & Ha).
  apply In_topic_articles in Ha. destruct Ha as (feed & it & Hf & Hit & ->).
  specialize (Hd t feed Ht Hf). rewrite Forall_forall in Hd.
  exact (Hd it Hit).
Qed.



(** With an Invalid Date among the dates the order of the digest is the
    engine's: here one that leaves the array as it is, and one that turns
    it around. *)
Example fetchMixedNews_order_left_to_engine :
  let feed :=
    [ Samples.an_item "a" (Some 1000%Z); Samples.an_item "b" None;
      Samples.an_item "c" (Some 2000%Z) ] in
  let keeping :=
    mkEnvAt (Samples.feeds [("Crypto", feed)]) Samples.always_delivers
            (fun _ => 0) (fun _ position => position) in
  let turning :=
    mkEnvAt (Samples.feeds [("Crypto", feed)]) Samples.always_delivers
            (fun _ => 0) (fun _ position => 2 - position) in
  (exists arts,
     result_of (fetchMixedNews keeping ["Crypto"] initial_store)
     = Resolved arts
     /\ map heading arts = ["a"; "b"; "c"])
  /\ (exists arts,
        result_of (fetchMixedNews turning ["Crypto"] initial_store)
        = Resolved arts
        /\ map heading arts = ["c"; "b"; "a"]).
Proof. split; eexists; split; reflexivity. Qed.

(** ** The quota *)

(** [Math.ceil(8 / n)] is the least [q] with [8 <= q * n]. *)
Lemma Math_ceil_8_over_spec (n : nat) :
  n <> 0 ->
  exists q, Math_ceil_8_over n = Finite q /\ (q - 1) * n < 8 <= q * n.
Proof.
  intros Hn. destruct n as [|n]; [congruence|].
  unfold Math_ceil_8_over. eexists. split; [reflexivity|].
  set (m := S n) in *.
  pose proof (Nat.div_mod_eq (8 + m - 1) m) as Hd.
  pose proof (Nat.mod_upper_bound (8 + m - 1) m Hn) as Hr.
  nia.
Qed.

Lemma ceil_unique (n q q' : nat) :
  (q - 1) * n < 8 <= q * n -> (q' - 1) * n < 8 <= q' * n -> q = q'.
Proof. nia. Qed.

Lemma topic_articles_quota (E : env) (q : nat) (t : string) :
  List.length (topic_articles E (Finite q) t) <= q.
Proof.
  unfold topic_articles. destruct (parseURL E (feedUrl t)); simpl; [|lia].
  rewrite length_map. apply firstn_le_length.
Qed.

Lemma gathered_with_quota (E : env) (T : list string) (q : nat) :
  (q - 1) * List.length T < 8 <= q * List.length T ->
  gathered E T = flat_map (topic_articles E (Finite q)) T.
Proof.
  intros Hq. unfold gathered.
  assert (Hn : List.length T <> 0) by lia.
  destruct (Math_ceil_8_over_spec Hn) as (q' & -> & Hq').
  now rewrite (@ceil_unique _ _ _ Hq' Hq).
Qed.

(** C2: whatever topics of T fail to fetch, fetchMixedNews(T) resolves (no
    failure reaches the caller) and the feed of every topic of T has been
    requested (no fetch is aborted).  With q = ceil(8 / |T|), the digest is
    drawn from what the succeeding topics offer, the first q items of each
    of their feeds, a failing topic adding nothing: it has min(8, number
    offered) articles, all of them offered; and, their dates being valid, it
    is exactly the merge of what is offered: the first eight of the offered
    articles put newest first, articles of equal date in the order
    offered. *)
Theorem fetchMixedNews_isolates_failures (E : env) (T : list string)
  (s : store) :
  exists digest,
    result_of (fetchMixedNews E T s) = Resolved digest
    /\ store_of (fetchMixedNews E T s) = s
    /\ requests (trace_of (fetchMixedNews E T s)) = map feedUrl T
    /\ forall q,
         (q - 1) * List.length T < 8 <= q * List.length T ->
         let offered := fun t =>
           match parseURL E (feedUrl t) with
           | Resolved feed =>
               map (fun it => mkArticle t (title it) (link it) (pubDate it))
                   (firstn q feed)
           | Rejected _ => []
           end in
         let succeeded := flat_map offered (filter (fetch_succeeds E) T) in
         List.length digest = Nat.min 8 (List.length succeeded)
         /\ (forall a, In a digest -> In a succeeded)
         /\ (Forall valid_date succeeded ->
             exists merged,
               digest = firstn 8 merged
               /\ Permutation merged succeeded
               /\ newest_first_sorted merged
               /\ forall d, dated d merged = dated d succeeded).
Proof.
  rewrite fetchMixedNews_run. eexists. split; [reflexivity|].
  split; [reflexivity|]. split; [apply requests_fetch|].
  intros q Hq offered succeeded.
  assert (Hoff : forall t, offered t = topic_articles E (Finite q) t).
  { intros t. unfold offered, topic_articles.
    destruct (parseURL E (feedUrl t)); reflexivity. }
  assert (Hsucc : succeeded = gathered E T).
  { unfold succeeded. rewrite flat_map_filter_nil.
    - rewrite (@gathered_with_quota E T q Hq). apply flat_map_ext. exact Hoff.
    - intros t Hf. unfold offered, fetch_succeeds in *.
      destruct (parseURL E (feedUrl t)); [discriminate | reflexivity]. }
  rewrite Hsucc. split; [|split].
  - now rewrite length_firstn, Array_sort_length.
  - intros a Ha. apply firstn_In in Ha.
    exact (Permutation_in _ (Array_sort_perm (engine_order E) newest_first _) Ha).
  - intros Hv. exists (Array_sort (engine_order E) newest_first (gathered E T)).
    split; [reflexivity|]. split; [apply Array_sort_perm|].
    split; [now apply Array_sort_sorted | intros d; now apply Array_sort_stable].
Qed.

(** The scenario of the specification: of two topics, the fetch of
    "Sports" fails and the fetch of "Crypto" succeeds; both feeds are
    requested, the failure is logged, and the digest holds the Crypto
    articles only, newest first. *)
Example fetchMixedNews_one_failing_one_succeeding :
  fetchMixedNews Samples.E_dated ["Sports"; "Crypto"] initial_store
  = (Resolved
       (map (to_article "Crypto")
          [ Samples.an_item "c2" (Some 3000%Z);
            Samples.an_item "c3" (Some 2000%Z);
            Samples.an_item "c1" (Some 1000%Z) ]),
     initial_store,
     [ ParseURL (feedUrl "Sports");
       ParseURL (feedUrl "Crypto");
       ConsoleError "Error fetching Sports:" "getaddrinfo ENOTFOUND" ]).
Proof. reflexivity. Qed.

(** C3: for every non-empty sequence of topics T the quota is
    ceil(8 / |T|), each topic contributes the first quota items of its feed
    at most (none when its fetch fails), and the digest is drawn from these
    contributions: it has
    min(8, number contributed) articles, all of them contributed, and with
    dated feeds it is the first eight of the contributions put newest
    first.  For a single topic the quota is 8 and the result is a
    rearrangement of all its items (capped at 8), sorted by date when their
    dates are valid. *)
Theorem fetchMixedNews_quota (E : env) (T : list string) (s : store) :
  T <> [] ->
  exists q,
    Math_ceil_8_over (List.length T) = Finite q
    /\ (q - 1) * List.length T < 8 <= q * List.length T
    /\ (forall t, In t T ->
          List.length (topic_articles E (Finite q) t) <= q
          /\ (forall feed, parseURL E (feedUrl t) = Resolved feed ->
                topic_articles E (Finite q) t
                = map (fun it => mkArticle t (title it) (link it) (pubDate it))
                      (firstn q feed))
          /\ (forall e, parseURL E (feedUrl t) = Rejected e ->
                topic_articles E (Finite q) t = []))
    /\ (exists digest,
          result_of (fetchMixedNews E T s) = Resolved digest
          /\ List.length digest
             = Nat.min 8 (List.length (flat_map (topic_articles E (Finite q)) T))
          /\ (forall a, In a digest ->
                        In a (flat_map (topic_articles E (Finite q)) T))
          /\ (dated_feeds E T ->
              exists merged,
                digest = firstn 8 merged
                /\ Permutation merged
                     (flat_map (topic_articles E (Finite q)) T)
                /\ newest_first_sorted merged))
    /\ (forall t feed,
          T = [t] -> parseURL E (feedUrl t) = Resolved feed ->
          q = 8
          /\ exists arts,
               result_of (fetchMixedNews E T s) = Resolved arts
               /\ Permutation arts
                    (map (fun it => mkArticle t (title it) (link it) (pubDate it))
                         (firstn 8 feed))
               /\ (Forall valid_date arts -> newest_first_sorted arts)).
Proof.
  intros HT.
  assert (Hlen : List.length T <> 0) by (destruct T; simpl; congruence).
  destruct (Math_ceil_8_over_spec Hlen) as (q & Hq & Hceil).
  exists q. split; [exact Hq|]. split; [exact Hceil|].
  split; [|split].
  - intros t _. split; [apply topic_articles_quota|].
    split; [intros feed Hf | intros e Hf];
      unfold topic_articles; now rewrite Hf.
  - rewrite fetchMixedNews_run. eexists. split; [reflexivity|].
    rewrite <- (@gathered_with_quota E T q Hceil). split; [|split].
    + now rewrite length_firstn, Array_sort_length.
    + intros a Ha. apply firstn_In in Ha.
      exact (Permutation_in _ (Array_sort_perm (engine_order E) newest_first _) Ha).
    + intros Hd. exists (Array_sort (engine_order E) newest_first (gathered E T)).
      split; [reflexivity|]. split; [apply Array_sort_perm|].
      now apply Array_sort_sorted, dated_feeds_gathered.
  - intros t feed -> Hf. simpl in Hq. injection Hq as <-.
    split; [reflexivity|].
    rewrite fetchMixedNews_run. unfold gathered. cbn [List.length flat_map].
    rewrite app_nil_r. unfold topic_articles. rewrite Hf.
    change (Math_ceil_8_over 1) with (Finite 8). cbn [slice0].
    set (arts := map (to_article t) (firstn 8 feed)).
    assert (Ha : List.length arts <= 8).
    { unfold arts. rewrite length_map. apply firstn_le_length. }
    rewrite firstn_all2 by now rewrite Array_sort_length.
    eexists. split; [reflexivity|]. split; [apply Array_sort_perm|].
    intros Hv. apply Array_sort_sorted.
    eapply Permutation_Forall; [apply Array_sort_perm | exact Hv].
Qed.

Lemma fetchMixedNews_quota_witness :
  ["Crypto"; "World News"; "Health"] <> []
  /\ exists q,
       Math_ceil_8_over 3 = Finite q /\ q = 3
       /\ exists digest,
            result_of (fetchMixedNews Samples.E_dated
                         ["Crypto"; "World News"; "Health"] initial_store)
            = Resolved digest
            /\ List.length digest = 5.
Proof.
  assert (Hne : ["Crypto"; "World News"; "Health"] <> []) by discriminate.
  split; [exact Hne|].
  destruct (@fetchMixedNews_quota Samples.E_dated
              ["Crypto"; "World News"; "Health"] initial_store Hne)
    as (q & Hq & _ & _ & (digest & Hr & Hlen & _) & _).
  assert (Hq3 : q = 3) by (simpl in Hq; now injection Hq as <-).
  exists q. split; [exact Hq|]. split; [exact Hq3|].
  exists digest. split; [exact Hr|]. rewrite Hlen, Hq3. reflexivity.
Defined.

(** ** Maps and sets *)

Section JsMapFacts.

Variable V : Type.
Implicit Types (m : JsMap.t V) (k : Z) (v : V).

Lemma get_app m1 m2 k :
  JsMap.get k (m1 ++ m2)
  = match JsMap.get k m1 with Some v => Some v | None => JsMap.get k m2 end.
Proof.
  induction m1 as [|[k' v'] m1 IH]; simpl; [reflexivity|].
  destruct (Z.eqb k k'); [reflexivity | exact IH].
Qed.

Lemma get_set_same m k v : JsMap.get k (JsMap.set k v m) = Some v.
Proof.
  unfold JsMap.set, JsMap.has. destruct (JsMap.get k m) as [v0|] eqn:Hg.
  - revert v0 Hg. induction m as [|[k' v'] m IH]; simpl; intros v0 Hg.
    + discriminate.
    + destruct (Z.eqb k k') eqn:Hk; simpl.
      * now rewrite Z.eqb_refl.
      * rewrite Hk. eapply IH; eassumption.
  - rewrite get_app, Hg. simpl. now rewrite Z.eqb_refl.
Qed.

Lemma get_set_other m k k' v :
  k <> k' -> JsMap.get k' (JsMap.set k v m) = JsMap.get k' m.
Proof.
  intros Hne. assert (Hb : Z.eqb k' k = false) by (apply Z.eqb_neq; congruence).
  unfold JsMap.set. destruct (JsMap.has k m).
  - induction m as [|[k0 v0] m IH]; simpl; [reflexivity|].
    destruct (Z.eqb k k0) eqn:Hk; simpl.
    + apply Z.eqb_eq in Hk. subst k0. now rewrite Hb.
    + destruct (Z.eqb k' k0); [reflexivity | exact IH].
  - rewrite get_app. destruct (JsMap.get k' m); [reflexivity|].
    simpl. now rewrite Hb.
Qed.

Lemma get_delete_same m k : JsMap.get k (JsMap.delete k m) = None.
Proof.
  unfold JsMap.delete. induction m as [|[k' v'] m IH]; simpl; [reflexivity|].
  destruct (Z.eqb k k') eqn:Hk; simpl; [exact IH|].
  now rewrite Hk.
Qed.

Lemma get_delete_other m k k' :
  k <> k' -> JsMap.get k' (JsMap.delete k m) = JsMap.get k' m.
Proof.
  intros Hne. unfold JsMap.delete.
  induction m as [|[k0 v0] m IH]; simpl; [reflexivity|].
  destruct (Z.eqb k k0) eqn:Hk; simpl.
  - apply Z.eqb_eq in Hk. subst k0.
    assert (Hb : Z.eqb k' k = false) by (apply Z.eqb_neq; congruence).
    now rewrite Hb.
  - destruct (Z.eqb k' k0); [reflexivity | exact IH].
Qed.

(** An entry of a map after [set] is the entry written or an entry that
    was there. *)
Lemma In_set m k v (e : Z * V) :
  In e (JsMap.entries (JsMap.set k v m)) ->
  e = (k, v) \/ In e (JsMap.entries m).
Proof.
  unfold JsMap.set, JsMap.entries. destruct (JsMap.has k m).
  - intros H. apply in_map_iff in H. destruct H as (e0 & He & Hin).
    destruct (Z.eqb k (fst e0)); [now left | right; now subst].
  - intros H. apply in_app_or in H. destruct H as [H|[H|[]]]; auto.
Qed.

Lemma In_get m k v : JsMap.get k m = Some v -> In (k, v) (JsMap.entries m).
Proof.
  unfold JsMap.entries. induction m as [|[k' v'] m IH]; simpl; [discriminate|].
  destruct (Z.eqb k k') eqn:Hk.
  - apply Z.eqb_eq in Hk. intros [= ->]. left. now subst.
  - intros H. right. now apply IH.
Qed.

Lemma get_None_keys m k : JsMap.get k m = None -> ~ In k (JsMap.keys m).
Proof.
  unfold JsMap.keys. induction m as [|[k' v'] m IH]; simpl; [tauto|].
  destruct (Z.eqb_spec k k') as [->|Hne]; [discriminate|].
  intros H [Heq|Hin]; [congruence | now apply IH].
Qed.

Lemma keys_set m k v :
  JsMap.keys (JsMap.set k v m)
  = if JsMap.has k m then JsMap.keys m else JsMap.keys m ++ [k].
Proof.
  unfold JsMap.set, JsMap.keys. destruct (JsMap.has k m).
  - rewrite map_map. apply map_ext. intros [k' v']. simpl.
    destruct (Z.eqb_spec k k') as [->|_]; reflexivity.
  - now rewrite map_app.
Qed.

(** [set] keeps the keys distinct, and keeps a present key in its place. *)
Lemma set_NoDup m k v :
  NoDup (JsMap.keys m) -> NoDup (JsMap.keys (JsMap.set k v m)).
Proof.
  intros H. rewrite keys_set. unfold JsMap.has.
  destruct (JsMap.get k m) eqn:Hg; [exact H|].
  apply NoDup_app; [exact H | repeat constructor; intros [] |].
  intros x Hx [<-|[]]. now apply (get_None_keys _ _ Hg).
Qed.

Lemma delete_NoDup m k :
  NoDup (JsMap.keys m) -> NoDup (JsMap.keys (JsMap.delete k m)).
Proof.
  unfold JsMap.keys, JsMap.delete. induction m as [|[k' v'] m IH]; simpl.
  - trivial.
  - intros H. inversion H as [|? ? Hk Hm]; subst.
    destruct (Z.eqb k k'); simpl; [now apply IH|].
    constructor; [|now apply IH].
    intros Hin. apply Hk. apply in_map_iff in Hin.
    destruct Hin as (e & He & Hin). apply filter_In in Hin.
    apply in_map_iff. exists e. tauto.
Qed.

End JsMapFacts.

Lemma has_app (x : string) (s1 s2 : JsSet.t) :
  JsSet.has x (s1 ++ s2) = JsSet.has x s1 || JsSet.has x s2.
Proof. apply existsb_app. Qed.

Lemma has_add (x t : string) (s : JsSet.t) :
  JsSet.has x (JsSet.add t s) = JsSet.has x s || String.eqb x t.
Proof.
  unfold JsSet.add. destruct (JsSet.has t s) eqn:Ht.
  - destruct (String.eqb_spec x t) as [->|_].
    + rewrite Ht. reflexivity.
    + now rewrite orb_false_r.
  - rewrite has_app. simpl. now rewrite orb_false_r.
Qed.

Lemma has_delete (x t : string) (s : JsSet.t) :
  JsSet.has x (JsSet.delete t s) = JsSet.has x s && negb (String.eqb x t).
Proof.
  unfold JsSet.delete, JsSet.has. induction s as [|y s IH]; simpl.
  - reflexivity.
  - destruct (String.eqb_spec t y) as [->|Hty]; simpl.
    + rewrite IH. destruct (String.eqb_spec x y); simpl.
      * now rewrite andb_false_r.
      * reflexivity.
    + rewrite IH. destruct (String.eqb_spec x y) as [->|Hxy]; simpl.
      * destruct (String.eqb_spec y t); [congruence | reflexivity].
      * reflexivity.
Qed.

Lemma has_In (x : string) (s : JsSet.t) : JsSet.has x s = true <-> In x s.
Proof.
  unfold JsSet.has. rewrite existsb_exists. split.
  - intros (y & Hy & He). apply String.eqb_eq in He. now subst.
  - intros H. exists x. split; [exact H | apply String.eqb_refl].
Qed.

Lemma has_toggled (x t : string) (s : JsSet.t) :
  JsSet.has x (toggled t s)
  = if String.eqb x t then negb (JsSet.has t s) else JsSet.has x s.
Proof.
  unfold toggled. destruct (JsSet.has t s) eqn:Ht.
  - rewrite has_delete. destruct (String.eqb_spec x t) as [->|_]; simpl.
    + now rewrite andb_false_r.
    + now rewrite andb_true_r.
  - rewrite has_add. destruct (String.eqb_spec x t) as [->|_]; simpl.
    + now rewrite orb_true_r.
    + now rewrite orb_false_r.
Qed.

Lemma toggled_twice (t : string) (s : JsSet.t) :
  JsSet.equal (toggled t (toggled t s)) s.
Proof.
  intros x. rewrite !has_toggled, String.eqb_refl.
  destruct (String.eqb_spec x t) as [->|_]; [|reflexivity].
  now rewrite negb_involutive.
Qed.

(** When the topic was not selected, the two toggles give back the very
    same list; when it was, the topic moves to the end. *)
Lemma toggled_twice_absent (t : string) (s : JsSet.t) :
  JsSet.has t s = false -> toggled t (toggled t s) = s.
Proof.
  intros Ht. unfold toggled at 2. rewrite Ht. unfold toggled.
  rewrite has_add, Ht, String.eqb_refl. simpl.
  unfold JsSet.add. rewrite Ht. unfold JsSet.delete.
  rewrite filter_app. simpl. rewrite String.eqb_refl. simpl.
  rewrite app_nil_r. apply forallb_filter_id.
  apply forallb_forall. intros y Hy.
  destruct (String.eqb_spec t y) as [->|_]; [|reflexivity].
  apply has_In in Hy. congruence.
Qed.

(** ** Running a handler *)

Lemma result_of_bind (A B : Type) (m : M A) (k : A -> M B) (s : store) :
  result_of (bind m k s)
  = match result_of (m s) with
    | Resolved a => result_of (k a (store_of (m s)))
    | Rejected e => Rejected e
    end.
Proof.
  unfold bind, result_of, store_of. destruct (m s) as [[[a|e] s1] t1]; simpl.
  - now destruct (k a s1) as [[r s2] t2].
  - reflexivity.
Qed.

Lemma store_of_bind (A B : Type) (m : M A) (k : A -> M B) (s : store) :
  store_of (bind m k s)
  = match result_of (m s) with
    | Resolved a => store_of (k a (store_of (m s)))
    | Rejected _ => store_of (m s)
    end.
Proof.
  unfold bind, result_of, store_of. destruct (m s) as [[[a|e] s1] t1]; simpl.
  - now destruct (k a s1) as [[r s2] t2].
  - reflexivity.
Qed.

Lemma trace_of_bind (A B : Type) (m : M A) (k : A -> M B) (s : store) :
  trace_of (bind m k s)
  = trace_of (m s)
    ++ match result_of (m s) with
       | Resolved a => trace_of (k a (store_of (m s)))
       | Rejected _ => []
       end.
Proof.
  unfold bind, result_of, store_of, trace_of.
  destruct (m s) as [[[a|e] s1] t1]; simpl.
  - now destruct (k a s1) as [[r s2] t2].
  - now rewrite app_nil_r.
Qed.

Lemma sendDigestToUser_preserves (E : env) (u : Z) :
  preserves_store (sendDigestToUser E u).
Proof.
  unfold sendDigestToUser. apply preserves_bind; [intros s; reflexivity|].
  intros s0. destruct (JsMap.get u (userPreferences s0)) as [topics|];
    [|apply preserves_call].
  destruct (Nat.eqb (List.length topics) 0); [apply preserves_call|].
  apply preserves_bind; [apply preserves_call|]. intros _.
  apply preserves_bind; [apply fetchMixedNews_preserves|]. intros newsData.
  apply preserves_call.
Qed.

Lemma daily_job_preserves (E : env) : preserves_store (daily_job E).
Proof.
  unfold daily_job. apply preserves_bind; [intros s; reflexivity|]. intros _.
  apply preserves_bind; [intros s; reflexivity|]. intros s0.
  apply preserves_for_of. intros x. apply sendDigestToUser_preserves.
Qed.

Lemma showMenu_store (u : Z) (s : store) :
  store_of (showMenu u s)
  = {| userPreferences := userPreferences s;
       selectionSession :=
         JsMap.set u
           (JsSet.of_list
              match JsMap.get u (userPreferences s) with
              | Some topics => topics
              | None => []
              end)
           (selectionSession s) |}.
Proof. reflexivity. Qed.

Lemma toggle_action_store (E : env) (u : Z) (t : string) (s : store) :
  store_of (toggle_action E u t s)
  = {| userPreferences := userPreferences s;
       selectionSession :=
         JsMap.set u (toggled t (session_of s u)) (selectionSession s) |}.
Proof.
  unfold toggle_action, toggled, session_of, bind, read, write, try_catch,
    call, ret, store_of.
  cbn [fst snd].
  destruct (telegram E (EditMessageReplyMarkup u _)) as [[]|e];
    destruct (telegram E (AnswerCbQuery u None)) as [[]|e']; reflexivity.
Qed.

Lemma done_selection_rejected (E : env) (u : Z) (s : store) :
  nothing_selected s u ->
  done_selection E u s
  = (telegram E (AnswerCbQuery u (Some "Select at least one!")), s,
     [AnswerCbQuery u (Some "Select at least one!")]).
Proof.
  unfold nothing_selected, done_selection, bind, read, answerCbQuery, call.
  destruct (JsMap.get u (selectionSession s)) as [S|]; [|reflexivity].
  intros ->. reflexivity.
Qed.

Lemma done_selection_store (E : env) (u : Z) (s : store) (S : JsSet.t) :
  JsMap.get u (selectionSession s) = Some S -> JsSet.size S <> 0 ->
  store_of (done_selection E u s)
  = {| userPreferences := JsMap.set u (JsSet.to_list S) (userPreferences s);
       selectionSession := JsMap.delete u (selectionSession s) |}.
Proof.
  intros Hg Hsz. unfold done_selection.
  rewrite store_of_bind. unfold read at 1 2. cbn [result_of store_of fst snd].
  rewrite Hg. apply Nat.eqb_neq in Hsz. rewrite Hsz.
  rewrite store_of_bind. unfold write at 1 2.
  cbn [result_of store_of fst snd].
  rewrite store_of_bind. unfold write at 1 2.
  cbn [result_of store_of fst snd
       userPreferences selectionSession].
  rewrite store_of_bind. unfold call at 1 2.
  cbn [result_of store_of fst snd].
  destruct (telegram E (EditMessageText u _)) as [[]|e]; [|reflexivity].
  apply sendDigestToUser_preserves.
Qed.

(** ** Sets built from a list *)

Lemma has_fold_add (x : string) (l : list string) (acc : JsSet.t) :
  JsSet.has x (fold_left (fun s y => JsSet.add y s) l acc)
  = JsSet.has x acc || JsSet.has x l.
Proof.
  revert acc. induction l as [|y l IH]; intros acc; simpl.
  - now rewrite orb_false_r.
  - rewrite IH, has_add, <- orb_assoc. reflexivity.
Qed.

Lemma of_list_equal (l : list string) : JsSet.equal (JsSet.of_list l) l.
Proof. intros x. unfold JsSet.of_list. now rewrite has_fold_add. Qed.

Lemma fold_add_NoDup (l : list string) (acc : JsSet.t) :
  NoDup (acc ++ l) -> fold_left (fun s y => JsSet.add y s) l acc = acc ++ l.
Proof.
  revert acc. induction l as [|y l IH]; intros acc Hnd; simpl.
  - now rewrite app_nil_r.
  - assert (Hy : JsSet.has y acc = false).
    { apply not_true_is_false. intros H. apply has_In in H.
      apply NoDup_remove_2 in Hnd. apply Hnd, in_or_app. now left. }
    unfold JsSet.add at 2. rewrite Hy.
    rewrite IH; rewrite <- app_assoc; [reflexivity | exact Hnd].
Qed.

(** A set rebuilt from the array of a set is that set. *)
Lemma of_list_NoDup (l : list string) : NoDup l -> JsSet.of_list l = l.
Proof. intros H. unfold JsSet.of_list. now rewrite fold_add_NoDup. Qed.

Lemma add_NoDup (t : string) (s : JsSet.t) : NoDup s -> NoDup (JsSet.add t s).
Proof.
  intros H. unfold JsSet.add. destruct (JsSet.has t s) eqn:Ht; [exact H|].
  apply NoDup_app; [exact H | repeat constructor; intros [] |].
  intros x Hx [<-|[]]. apply has_In in Hx. congruence.
Qed.

Lemma toggled_NoDup (t : string) (s : JsSet.t) : NoDup s -> NoDup (toggled t s).
Proof.
  intros H. unfold toggled. destruct (JsSet.has t s).
  - now apply NoDup_filter.
  - now apply add_NoDup.
Qed.

Lemma of_list_is_NoDup (l : list string) : NoDup (JsSet.of_list l).
Proof.
  unfold JsSet.of_list, JsSet.empty.
  assert (H : NoDup (@nil string)) by constructor. revert H.
  generalize (@nil string) as acc.
  induction l as [|y l IH]; intros acc H; simpl; [exact H|].
  apply IH. now apply add_NoDup.
Qed.

(** ** Sessions and commits *)

(** C4: for a user whose selection session is absent or empty, the commit
    action only answers the callback with the notice "Select at least one!"
    (the rejection); the store after it is the store before it, so the
    user's Preference Record and selection session are unchanged. *)
Theorem done_selection_rejects_empty (E : env) (u : Z) (s : store) :
  nothing_selected s u ->
  trace_of (done_selection E u s)
  = [AnswerCbQuery u (Some "Select at least one!")]
  /\ result_of (done_selection E u s)
     = telegram E (AnswerCbQuery u (Some "Select at least one!"))
  /\ store_of (done_selection E u s) = s
  /\ JsMap.get u (userPreferences (store_of (done_selection E u s)))
     = JsMap.get u (userPreferences s)
  /\ JsMap.get u (selectionSession (store_of (done_selection E u s)))
     = JsMap.get u (selectionSession s).
Proof.
  intros H. rewrite (@done_selection_rejected E u s H).
  unfold trace_of, result_of, store_of. cbn [fst snd]. repeat split.
Qed.

Lemma done_selection_rejects_empty_witness :
  let absent := initial_store in
  let emptied :=
    store_of (toggle_action Samples.E_dated 7 "Crypto"
                (store_of (toggle_action Samples.E_dated 7 "Crypto"
                             Samples.two_users))) in
  (nothing_selected absent 7
   /\ store_of (done_selection Samples.E_dated 7 absent) = absent)
  /\ (JsMap.get 7 (selectionSession emptied) = Some []
      /\ nothing_selected emptied 7
      /\ store_of (done_selection Samples.E_dated 7 emptied) = emptied).
Proof.
  cbv zeta. split.
  - assert (H : nothing_selected initial_store 7) by exact I.
    split; [exact H|].
    apply (@done_selection_rejects_empty Samples.E_dated 7 initial_store H).
  - set (emptied := store_of _).
    assert (H : nothing_selected emptied 7) by reflexivity.
    split; [reflexivity|]. split; [exact H|].
    apply (@done_selection_rejects_empty Samples.E_dated 7 emptied H).
Defined.

(** C5: for a user whose selection session is a non-empty set S, the
    commit action stores exactly the topics of S, in their order of
    selection, as the user's Preference Record, leaves the other users'
    records alone and removes the user's session; a following open builds
    the new session from the committed record (the session map has nothing
    left for the user), and that session is S again. *)
Theorem done_selection_commits (E : env) (u : Z) (s : store) (S : JsSet.t) :
  JsMap.get u (selectionSession s) = Some S ->
  JsSet.size S <> 0 ->
  let s1 := store_of (done_selection E u s) in
  let s2 := store_of (showMenu u s1) in
  JsMap.get u (userPreferences s1) = Some (JsSet.to_list S)
  /\ (forall v, v <> u ->
        JsMap.get v (userPreferences s1) = JsMap.get v (userPreferences s))
  /\ JsMap.get u (selectionSession s1) = None
  /\ JsMap.get u (selectionSession s2)
     = Some (JsSet.of_list
               match JsMap.get u (userPreferences s1) with
               | Some topics => topics
               | None => []
               end)
  /\ (exists S', JsMap.get u (selectionSession s2) = Some S'
                 /\ JsSet.equal S' S /\ (NoDup S -> S' = S)).
Proof.
  intros Hg Hsz s1 s2.
  assert (H1 : s1 = {| userPreferences :=
                         JsMap.set u (JsSet.to_list S) (userPreferences s);
                       selectionSession :=
                         JsMap.delete u (selectionSession s) |})
    by (apply done_selection_store; assumption).
  assert (Hp : JsMap.get u (userPreferences s1) = Some (JsSet.to_list S))
    by (rewrite H1; apply get_set_same).
  assert (H2 : JsMap.get u (selectionSession s2)
               = Some (JsSet.of_list (JsSet.to_list S))).
  { unfold s2. rewrite showMenu_store. cbn [selectionSession].
    rewrite get_set_same, Hp. reflexivity. }
  split; [exact Hp|]. split; [|split; [|split]].
  - intros v Hv. rewrite H1. cbn [userPreferences].
    apply get_set_other. congruence.
  - rewrite H1. apply get_delete_same.
  - rewrite H2, Hp. reflexivity.
  - eexists. split; [exact H2|]. split.
    + apply of_list_equal.
    + apply of_list_NoDup.
Qed.

Lemma done_selection_commits_witness :
  let s :=
    store_of (toggle_action Samples.E_dated 7 "Sports"
                (store_of (toggle_action Samples.E_dated 7 "Technology"
                             (store_of (showMenu 7 initial_store))))) in
  let s1 := store_of (done_selection Samples.E_dated 7 s) in
  let s2 := store_of (showMenu 7 s1) in
  JsMap.get 7 (selectionSession s) = Some ["Technology"; "Sports"]
  /\ JsMap.get 7 (userPreferences s1) = Some ["Technology"; "Sports"]
  /\ JsMap.get 7 (selectionSession s1) = None
  /\ JsMap.get 7 (selectionSession s2) = Some ["Technology"; "Sports"].
Proof.
  cbv zeta. set (s := store_of (toggle_action _ _ "Sports" _)).
  assert (Hg : JsMap.get 7 (selectionSession s)
               = Some ["Technology"; "Sports"]) by reflexivity.
  assert (Hsz : JsSet.size ["Technology"; "Sports"] <> 0) by discriminate.
  destruct (@done_selection_commits Samples.E_dated 7 s _ Hg Hsz)
    as (Hp & _ & Hd & Hs2 & _).
  split; [exact Hg|]. split; [exact Hp|]. split; [exact Hd|].
  rewrite Hs2, Hp. reflexivity.
Defined.

(** C6: for every user, topic and store, two toggles in succession leave a
    selection set with the same members as before (an absent session counts
    as the empty set); the Preference Store and the other users' sessions
    are not touched.  A set without repeated members comes back as a
    rearrangement of itself. *)
Theorem toggle_twice_restores (E E' : env) (u : Z) (t : string) (s : store) :
  let s2 :=
    store_of (toggle_action E' u t (store_of (toggle_action E u t s))) in
  JsSet.equal (session_of s2 u) (session_of s u)
  /\ (JsSet.has t (session_of s u) = false ->
      session_of s2 u = session_of s u)
  /\ (NoDup (session_of s u) ->
      Permutation (session_of s2 u) (session_of s u))
  /\ userPreferences s2 = userPreferences s
  /\ (forall v, v <> u ->
        JsMap.get v (selectionSession s2) = JsMap.get v (selectionSession s)).
Proof.
  intros s2.
  assert (H1 : session_of (store_of (toggle_action E u t s)) u
               = toggled t (session_of s u)).
  { rewrite toggle_action_store. unfold session_of at 1.
    cbn [selectionSession]. now rewrite get_set_same. }
  assert (H2 : session_of s2 u = toggled t (toggled t (session_of s u))).
  { unfold s2. rewrite toggle_action_store. unfold session_of at 1.
    cbn [selectionSession]. rewrite get_set_same. now rewrite H1. }
  split; [|split; [|split; [|split]]].
  - rewrite H2. apply toggled_twice.
  - intros Ht. rewrite H2. now apply toggled_twice_absent.
  - intros Hnd. rewrite H2. apply NoDup_Permutation.
    + now apply toggled_NoDup, toggled_NoDup.
    + exact Hnd.
    + intros x. rewrite <- !has_In. now rewrite toggled_twice.
  - unfold s2. now rewrite !toggle_action_store.
  - intros v Hv. unfold s2. rewrite !toggle_action_store.
    cbn [selectionSession]. rewrite !get_set_other by congruence.
    reflexivity.
Qed.

(** ** Reachable stores *)

(** Only a commit writes the Preference Store. *)
Lemma only_commit_writes_preferences (E : env) (op : operation) (s : store) :
  (forall u, op <> Commit u) ->
  userPreferences (store_of (run_operation E op s)) = userPreferences s.
Proof.
  intros Hop. destruct op as [u|u t|u|]; cbn [run_operation].
  - now rewrite showMenu_store.
  - now rewrite toggle_action_store.
  - now elim (Hop u).
  - now rewrite daily_job_preserves.
Qed.

(** A commit either leaves the store alone or writes a non-empty record. *)
Lemma done_selection_cases (E : env) (u : Z) (s : store) :
  store_of (done_selection E u s) = s
  \/ exists S,
       S <> []
       /\ JsMap.get u (selectionSession s) = Some S
       /\ store_of (done_selection E u s)
          = {| userPreferences :=
                 JsMap.set u (JsSet.to_list S) (userPreferences s);
               selectionSession := JsMap.delete u (selectionSession s) |}.
Proof.
  destruct (JsMap.get u (selectionSession s)) as [S|] eqn:Hg.
  - destruct S as [|x S].
    + left. rewrite (@done_selection_rejected E u s); [reflexivity|].
      unfold nothing_selected. now rewrite Hg.
    + right. exists (x :: S). split; [discriminate|]. split; [reflexivity|].
      apply done_selection_store; [exact Hg | discriminate].
  - left. rewrite (@done_selection_rejected E u s); [reflexivity|].
    unfold nothing_selected. now rewrite Hg.
Qed.

(** C7: in every store reachable by opens, toggles, commits and scheduler
    ticks, every Preference Record holds at least one topic. *)
Theorem committed_records_nonempty (s : store) :
  reachable s ->
  forall u topics,
    In (u, topics) (JsMap.entries (userPreferences s)) ->
    1 <= List.length topics.
Proof.
  induction 1 as [|E op s Hr IH]; intros u topics Hin.
  - destruct Hin.
  - destruct op as [v|v t|v|].
    + rewrite only_commit_writes_preferences in Hin by discriminate.
      now apply IH in Hin.
    + rewrite only_commit_writes_preferences in Hin by discriminate.
      now apply IH in Hin.
    + cbn [run_operation] in Hin.
      destruct (done_selection_cases E v s) as [Heq|(S & HS & _ & Heq)];
        rewrite Heq in Hin.
      * now apply IH in Hin.
      * cbn [userPreferences] in Hin. apply In_set in Hin.
        destruct Hin as [Hin|Hin].
        -- injection Hin as _ ->. unfold JsSet.to_list.
           destruct S; [congruence | simpl; lia].
        -- now apply IH in Hin.
    + rewrite only_commit_writes_preferences in Hin by discriminate.
      now apply IH in Hin.
Qed.

Lemma committed_records_nonempty_witness :
  let s :=
    store_of (run_operation Samples.E_dated (Commit 7)
      (store_of (run_operation Samples.E_dated (Toggle 7 "Crypto")
         (store_of (run_operation Samples.E_dated (Open 7)
                      initial_store))))) in
  reachable s
  /\ JsMap.entries (userPreferences s) = [(7%Z, ["Crypto"])]
  /\ 1 <= List.length ["Crypto"].
Proof.
  cbv zeta.
  set (s := store_of (run_operation _ (Commit 7) _)).
  assert (Hr : reachable s) by (repeat apply reachable_step; constructor).
  split; [exact Hr|]. split; [reflexivity|].
  apply (@committed_records_nonempty s Hr 7%Z ["Crypto"]).
  left. reflexivity.
Defined.

(** In a reachable store no selection set repeats a member. *)
Lemma reachable_sessions_NoDup (s : store) :
  reachable s ->
  forall u S, In (u, S) (JsMap.entries (selectionSession s)) -> NoDup S.
Proof.
  induction 1 as [|E op s Hr IH]; intros u S Hin.
  - destruct Hin.
  - destruct op as [v|v t|v|]; cbn [run_operation] in Hin.
    + rewrite showMenu_store in Hin. cbn [selectionSession] in Hin.
      apply In_set in Hin. destruct Hin as [Hin|Hin]; [|eauto].
      injection Hin as _ ->. apply of_list_is_NoDup.
    + rewrite toggle_action_store in Hin. cbn [selectionSession] in Hin.
      apply In_set in Hin. destruct Hin as [Hin|Hin]; [|eauto].
      injection Hin as _ ->. apply toggled_NoDup. unfold session_of.
      destruct (JsMap.get v (selectionSession s)) as [S0|] eqn:Hg.
      * apply In_get in Hg. eauto.
      * constructor.
    + destruct (done_selection_cases E v s) as [Heq|(S0 & _ & _ & Heq)];
        rewrite Heq in Hin; [eauto|].
      cbn [selectionSession] in Hin. unfold JsMap.entries, JsMap.delete in Hin.
      apply filter_In in Hin. destruct Hin as [Hin _]. eauto.
    + rewrite daily_job_preserves in Hin. eauto.
Qed.

(** In a reachable store each map has one entry per user at most. *)
Lemma reachable_keys_NoDup (s : store) :
  reachable s ->
  NoDup (JsMap.keys (userPreferences s))
  /\ NoDup (JsMap.keys (selectionSession s)).
Proof.
  induction 1 as [|E op s Hr [IHp IHs]].
  - split; constructor.
  - destruct op as [v|v t|v|]; cbn [run_operation].
    + rewrite showMenu_store. split; [exact IHp | now apply set_NoDup].
    + rewrite toggle_action_store. split; [exact IHp | now apply set_NoDup].
    + destruct (done_selection_cases E v s) as [Heq|(S0 & _ & _ & Heq)];
        rewrite Heq; [now split|].
      split; [now apply set_NoDup | now apply delete_NoDup].
    + rewrite daily_job_preserves. now split.
Qed.

(** ** Dispatch of the toggle button *)

(** The keyboard offers the eight fixed topics, two per row, and the commit
    button; what is selected only changes the labels. *)
Example keyboard_actions (selected : JsSet.t) :
  map (map callback_data) (getTopicKeyboard selected)
  = [ ["toggle_Technology"; "toggle_Business"];
      ["toggle_Sports"; "toggle_Health"];
      ["toggle_Science"; "toggle_Entertainment"];
      ["toggle_Crypto"; "toggle_World News"];
      ["done_selection"] ].
Proof. reflexivity. Qed.

Lemma match_toggle_accepts (topic : string) :
  topic <> "" -> has_line_terminator topic = false ->
  match_toggle ("toggle_" ++ topic) = Some topic.
Proof.
  intros Hne Hlt. unfold match_toggle. cbn [append strip_prefix Ascii.eqb
    Bool.eqb]. cbn. apply String.eqb_neq in Hne. now rewrite Hne, Hlt.
Qed.

(** C10: the toggle handler takes as the topic whatever the pattern
    [toggle_(.+)] captures (any string that is not empty and has no line
    terminator) and flips it in the user's selection set, whether or not it
    is one of the 8 fixed topics; so there is a topic string outside the
    fixed list ("Politics") that a toggle followed by a commit stores in
    the user's Preference Record. *)
Theorem toggle_accepts_unlisted_topic :
  (forall (E : env) (u : Z) (topic : string) (s : store),
     topic <> "" -> has_line_terminator topic = false ->
     handle E (CallbackQuery u ("toggle_" ++ topic)) s
     = toggle_action E u topic s
     /\ JsSet.has topic (session_of (store_of (toggle_action E u topic s)) u)
        = negb (JsSet.has topic (session_of s u)))
  /\ exists topic,
       ~ In topic AVAILABLE_TOPICS
       /\ forall (E E' : env) (u : Z) (s : store),
            JsSet.has topic (session_of s u) = false ->
            let s1 :=
              store_of (handle E (CallbackQuery u ("toggle_" ++ topic)) s) in
            let s2 :=
              store_of (handle E' (CallbackQuery u "done_selection") s1) in
            exists topics,
              JsMap.get u (userPreferences s2) = Some topics
              /\ In topic topics.
Proof.
  assert (Hflip : forall E u topic s,
            JsSet.has topic (session_of (store_of (toggle_action E u topic s)) u)
            = negb (JsSet.has topic (session_of s u))).
  { intros E u topic s. rewrite toggle_action_store. unfold session_of at 1.
    cbn [selectionSession]. rewrite get_set_same, has_toggled.
    now rewrite String.eqb_refl. }
  split.
  - intros E u topic s Hne Hlt. split; [|apply Hflip].
    unfold handle. now rewrite match_toggle_accepts.
  - exists "Politics". split.
    + unfold AVAILABLE_TOPICS. simpl. intuition discriminate.
    + intros E E' u s Hout s1 s2.
      assert (H1 : s1 = store_of (toggle_action E u "Politics" s))
        by reflexivity.
      assert (Hin : JsSet.has "Politics" (session_of s1 u) = true).
      { rewrite H1, Hflip, Hout. reflexivity. }
      assert (H2 : s2 = store_of (done_selection E' u s1)) by reflexivity.
      unfold session_of in Hin.
      destruct (JsMap.get u (selectionSession s1)) as [S|] eqn:Hg;
        [|discriminate].
      assert (Hsz : JsSet.size S <> 0) by (destruct S; discriminate).
      exists (JsSet.to_list S). split.
      * rewrite H2, (@done_selection_store E' u s1 S Hg Hsz).
        apply get_set_same.
      * now apply has_In.
Qed.

(** From the empty store: the callback data "toggle_Politics" and then
    "done_selection" leave the record ["Politics"] for the user. *)
Example unlisted_topic_committed :
  userPreferences
    (store_of (handle Samples.E_dated (CallbackQuery 7 "done_selection")
       (store_of (handle Samples.E_dated (CallbackQuery 7 "toggle_Politics")
                    initial_store))))
  = [(7%Z, ["Politics"])].
Proof. reflexivity. Qed.

(** ** The scheduler *)

Lemma invoked_for_app (v : Z) (t1 t2 : list event) :
  invoked_for v (t1 ++ t2) = invoked_for v t1 || invoked_for v t2.
Proof. apply existsb_app. Qed.

Lemma invoked_for_fetch (E : env) (v : Z) (T : list string) :
  invoked_for v (fetch_calls E T) = false.
Proof.
  unfold invoked_for.
  destruct (existsb (sent_to v) (fetch_calls E T)) eqn:Hx; [|reflexivity].
  apply existsb_exists in Hx. destruct Hx as (ev & Hin & Hs).
  destruct ev as [| | |c text mode| | | |]; try discriminate.
  elim (@fetch_calls_no_message E T _ Hin c text mode). reflexivity.
Qed.

(** [sendDigestToUser] speaks to its own chat only, and always does. *)
Lemma sendDigestToUser_invoked (E : env) (u v : Z) (s : store) :
  invoked_for v (trace_of (sendDigestToUser E u s)) = Z.eqb u v.
Proof.
  unfold sendDigestToUser. rewrite trace_of_bind.
  unfold read at 1 2 3. cbn [trace_of result_of store_of fst snd app].
  destruct (JsMap.get u (userPreferences s)) as [topics|];
    [|cbn; now rewrite orb_false_r].
  destruct (Nat.eqb (List.length topics) 0);
    [cbn; now rewrite orb_false_r|].
  rewrite trace_of_bind. unfold sendMessage at 1 2 3, call at 1 2 3.
  cbn [trace_of result_of store_of fst snd].
  destruct (telegram E (SendMessage u _ Plain)) as [[]|e];
    [|cbn; now rewrite !orb_false_r].
  rewrite trace_of_bind, fetchMixedNews_run.
  cbn [trace_of result_of store_of fst snd].
  rewrite !invoked_for_app, invoked_for_fetch. cbn.
  now rewrite !orb_false_r, orb_diag.
Qed.

Section Loop.

Variable E : env.
Variable s : store.

Let body (entry : Z * list string) : M unit := sendDigestToUser E (fst entry).

Lemma for_of_all_resolve (l : list (Z * list string)) :
  (forall v, In v (map fst l) ->
     result_of (sendDigestToUser E v s) = Resolved tt) ->
  result_of (for_of l body s) = Resolved tt
  /\ forall v, invoked_for v (trace_of (for_of l body s)) = true
               <-> In v (map fst l).
Proof.
  induction l as [|x l IH]; intros Hok.
  - split; [reflexivity|]. intros v. cbn. split; [discriminate | tauto].
  - cbn [for_of]. rewrite result_of_bind, trace_of_bind.
    change (body x) with (sendDigestToUser E (fst x)).
    rewrite (Hok (fst x)) by now left.
    rewrite (sendDigestToUser_preserves E (fst x) s).
    destruct IH as [IH1 IH2]; [intros v Hv; apply Hok; now right|].
    split; [exact IH1|]. intros v.
    rewrite invoked_for_app, sendDigestToUser_invoked.
    rewrite orb_true_iff, IH2, Z.eqb_eq. cbn [map In]. tauto.
Qed.

Lemma for_of_first_failure (before : list (Z * list string))
  (x : Z * list string) (after : list (Z * list string)) (e : string) :
  (forall v, In v (map fst before) ->
     result_of (sendDigestToUser E v s) = Resolved tt) ->
  result_of (sendDigestToUser E (fst x) s) = Rejected e ->
  result_of (for_of (before ++ x :: after) body s) = Rejected e
  /\ forall v,
       invoked_for v (trace_of (for_of (before ++ x :: after) body s)) = true
       <-> In v (map fst before ++ [fst x]).
Proof.
  intros Hok Hfail. induction before as [|y before IH].
  - cbn [app for_of map]. rewrite result_of_bind, trace_of_bind.
    change (body x) with (sendDigestToUser E (fst x)).
    rewrite Hfail. split; [reflexivity|].
    intros v. rewrite app_nil_r, sendDigestToUser_invoked, Z.eqb_eq.
    cbn [In]. tauto.
  - cbn [app for_of map]. rewrite result_of_bind, trace_of_bind.
    change (body y) with (sendDigestToUser E (fst y)).
    rewrite (Hok (fst y)) by now left.
    rewrite (sendDigestToUser_preserves E (fst y) s).
    destruct IH as [IH1 IH2]; [intros v Hv; apply Hok; now right|].
    split; [exact IH1|]. intros v.
    rewrite invoked_for_app, sendDigestToUser_invoked.
    rewrite orb_true_iff, IH2, Z.eqb_eq. cbn [In]. tauto.
Qed.

End Loop.

Lemma daily_job_run (E : env) (s : store) :
  result_of (daily_job E s)
  = result_of (for_of (JsMap.entries (userPreferences s))
                 (fun entry => sendDigestToUser E (fst entry)) s)
  /\ forall v,
       invoked_for v (trace_of (daily_job E s))
       = invoked_for v
           (trace_of (for_of (JsMap.entries (userPreferences s))
                        (fun entry => sendDigestToUser E (fst entry)) s)).
Proof.
  unfold daily_job. rewrite result_of_bind, trace_of_bind.
  unfold emit at 1 2 3 4 5. cbn [trace_of result_of store_of fst snd].
  rewrite result_of_bind, trace_of_bind.
  unfold read at 1 2 3 4 5. cbn [trace_of result_of store_of fst snd app].
  split; [reflexivity|]. intros v. reflexivity.
Qed.

(** C8, as amended: when the daily job runs, the send pipeline is invoked
    for the users of the Preference Store in insertion order; if no send
    fails, it is invoked for every user present in the store; a failure
    while sending to one user rejects the job there, so the pipeline has
    been invoked for that user and the users before it, and for no user
    after it. *)
Theorem daily_job_stops_at_first_failure (E : env) (s : store) :
  let users := JsMap.keys (userPreferences s) in
  let tr := trace_of (daily_job E s) in
  ((forall v, In v users ->
      result_of (sendDigestToUser E v s) = Resolved tt) ->
   result_of (daily_job E s) = Resolved tt
   /\ forall v, invoked_for v tr = true <-> In v users)
  /\ (forall before u after e,
        users = before ++ u :: after ->
        (forall v, In v before ->
           result_of (sendDigestToUser E v s) = Resolved tt) ->
        result_of (sendDigestToUser E u s) = Rejected e ->
        result_of (daily_job E s) = Rejected e
        /\ forall v, invoked_for v tr = true <-> In v (before ++ [u])).
Proof.
  intros users tr. destruct (daily_job_run E s) as [Hres Htr].
  unfold tr. split.
  - intros Hok. rewrite Hres.
    destruct (@for_of_all_resolve E s (JsMap.entries (userPreferences s)) Hok)
      as [H1 H2].
    split; [exact H1|]. intros v. rewrite Htr. apply H2.
  - intros before u after e Husers Hok Hfail.
    unfold users, JsMap.keys in Husers.
    apply map_eq_app in Husers.
    destruct Husers as (l1 & l2 & Hl & Hb & Ha).
    destruct l2 as [|x l2]; [discriminate|].
    cbn [map] in Ha. injection Ha as Hx Ha. subst before u.
    unfold JsMap.entries. rewrite Hres. unfold JsMap.entries. rewrite Hl.
    destruct (@for_of_first_failure E s l1 x l2 e Hok Hfail) as [H1 H2].
    split; [exact H1|]. intros v. rewrite Htr.
    unfold JsMap.entries. rewrite Hl. apply H2.
Qed.

Lemma daily_job_stops_at_first_failure_witness :
  (result_of (daily_job Samples.E_dated Samples.two_users) = Resolved tt
   /\ forall v,
        invoked_for v (trace_of (daily_job Samples.E_dated Samples.two_users))
        = true <-> In v [1%Z; 2%Z])
  /\ (result_of (daily_job Samples.E_blocked Samples.two_users)
      = Rejected "403: Forbidden: bot was blocked by the user"
      /\ forall v,
           invoked_for v
             (trace_of (daily_job Samples.E_blocked Samples.two_users))
           = true <-> In v [1%Z]).
Proof.
  split.
  - apply (proj1 (daily_job_stops_at_first_failure Samples.E_dated
                    Samples.two_users)).
    intros v [<-|[<-|[]]]; reflexivity.
  - apply (proj2 (daily_job_stops_at_first_failure Samples.E_blocked
                    Samples.two_users) [] 1%Z [2%Z]).
    + reflexivity.
    + intros v [].
    + reflexivity.
Defined.

(** C8, counterexample: two users are in the Preference Store and the
    first has blocked the bot.  Sending to the second would succeed, but
    the rejection of the first send ends the job: nothing is sent to the
    second user. *)
Lemma daily_job_skips_users_after_failure :
  JsMap.keys (userPreferences Samples.two_users) = [1%Z; 2%Z]
  /\ result_of (sendDigestToUser Samples.E_blocked 2 Samples.two_users)
     = Resolved tt
  /\ daily_job Samples.E_blocked Samples.two_users
     = (Rejected "403: Forbidden: bot was blocked by the user",
        Samples.two_users,
        [ ConsoleLog "⏰ Running daily digest job at 9 AM...";
          SendMessage 1 "🔍 Fetching latest headlines..." Plain ])
  /\ invoked_for 2 (trace_of (daily_job Samples.E_blocked Samples.two_users))
     = false.
Proof. repeat split. Qed.

(** ** The renderer *)

Lemma contains_refl (s : string) : contains s s.
Proof. exists "", "". simpl. now rewrite string_app_nil_r. Qed.

Lemma contains_middle (a b c : string) : contains (a ++ b ++ c)%string b.
Proof. now exists a, c. Qed.

Lemma contains_trans (a b c : string) :
  contains a b -> contains b c -> contains a c.
Proof.
  intros (p1 & q1 & ->) (p2 & q2 & ->).
  exists (p1 ++ p2)%string, (q2 ++ q1)%string.
  now rewrite !string_app_assoc.
Qed.

Lemma join_contains (sep : string) (l : list string) (t : string) :
  In t l -> contains (join sep l) t.
Proof.
  induction l as [|x l IH]; intros Hin; [destruct Hin|].
  destruct l as [|y l].
  - destruct Hin as [->|[]]. apply contains_refl.
  - change (join sep (x :: y :: l))
      with (x ++ sep ++ join sep (y :: l))%string.
    destruct Hin as [->|Hin].
    + exists "", (sep ++ join sep (y :: l))%string. reflexivity.
    + destruct (IH Hin) as (p & q & ->).
      exists (x ++ sep ++ p)%string, q. now rewrite !string_app_assoc.
Qed.

Lemma digest_blocks_app (l1 l2 : list article) :
  digest_blocks (l1 ++ l2) = (digest_blocks l1 ++ digest_blocks l2)%string.
Proof.
  induction l1 as [|a l1 IH]; cbn [app digest_blocks]; [reflexivity|].
  now rewrite IH, string_app_assoc.
Qed.

(** The [forEach] loop appends one block per article. *)
Lemma render_loop (newsData : list article) (message : string) :
  fold_left
    (fun message item =>
       let message := (message ++ "🔹 *" ++ heading item ++ "*" ++ nl)%string in
       (message ++ "[Read more](" ++ url item ++ ")" ++ nl ++ nl)%string)
    newsData message
  = (message ++ digest_blocks newsData)%string.
Proof.
  revert message. induction newsData as [|a l IH]; intros message.
  - simpl. now rewrite string_app_nil_r.
  - cbn [fold_left digest_blocks]. rewrite IH. unfold article_block.
    cbv zeta. now rewrite !string_app_assoc.
Qed.

Lemma renderTelegramMessage_shape (D : list article) (T : list string) :
  D <> [] ->
  renderTelegramMessage D T
  = (digest_header T ++ digest_blocks D ++ digest_footer)%string.
Proof.
  intros HD. destruct D as [|a D]; [congruence|].
  unfold renderTelegramMessage. cbv zeta. rewrite render_loop.
  unfold digest_header, digest_footer. now rewrite !string_app_assoc.
Qed.

Lemma nth_error_split_at (A : Type) (l : list A) (i : nat) (a : A) :
  nth_error l i = Some a -> l = firstn i l ++ a :: skipn (S i) l.
Proof.
  revert l. induction i as [|i IH]; intros [|x l]; simpl; try discriminate.
  - now intros [= ->].
  - intros H. f_equal. now apply IH.
Qed.

Lemma prefix_app (needle post : string) :
  String.prefix needle (needle ++ post) = true.
Proof.
  induction needle as [|c needle IH]; simpl.
  - now destruct post.
  - destruct (ascii_dec c c); [exact IH | congruence].
Qed.

Lemma occurrences_unfold (needle hay : string) :
  occurrences needle hay
  = (if String.prefix needle hay then 1 else 0)
    + match hay with
      | EmptyString => 0
      | String _ hay' => occurrences needle hay'
      end.
Proof. now destruct hay. Qed.

Lemma contains_occurs (hay needle : string) :
  contains hay needle -> 1 <= occurrences needle hay.
Proof.
  intros (pre & post & ->). induction pre as [|c pre IH].
  - cbn [append]. rewrite occurrences_unfold, prefix_app. lia.
  - cbn [append]. rewrite occurrences_unfold. lia.
Qed.

(** C9 (amended): for every non-empty digest D and topic sequence T, the
    message is the header, then exactly one block per article in the order
    of D, then the footer; the block of the i-th article is the template
    filled with its heading and its URL, each written once there; so every
    article's heading and URL occur in the message, at least once (not
    exactly once: the same text may also be written by another block, by
    the header or by the footer); the header holds the topics of T joined
    by ", " in their order, so it lists every topic of T. *)
Theorem renderTelegramMessage_lists_articles (D : list article)
  (T : list string) :
  D <> [] ->
  let message := renderTelegramMessage D T in
  message = (digest_header T ++ digest_blocks D ++ digest_footer)%string
  /\ (forall i a,
        nth_error D i = Some a ->
        message
        = ((digest_header T ++ digest_blocks (firstn i D))
           ++ ("🔹 *" ++ heading a ++ "*" ++ nl
               ++ "[Read more](" ++ url a ++ ")" ++ nl ++ nl)
           ++ (digest_blocks (skipn (S i) D) ++ digest_footer))%string)
  /\ (forall a, In a D ->
        contains message (heading a) /\ contains message (url a)
        /\ 1 <= occurrences (heading a) message
        /\ 1 <= occurrences (url a) message)
  /\ digest_header T
     = ("☕ **Your Daily Digest**" ++ nl
        ++ "_Topics: " ++ join ", " T ++ "_" ++ nl ++ nl)%string
  /\ (forall t, In t T -> contains (digest_header T) t).
Proof.
  intros HD message.
  assert (Hshape : message
                   = (digest_header T ++ digest_blocks D ++ digest_footer)%string)
    by now apply renderTelegramMessage_shape.
  assert (Hblock : forall i a, nth_error D i = Some a ->
            message
            = ((digest_header T ++ digest_blocks (firstn i D))
               ++ article_block a
               ++ (digest_blocks (skipn (S i) D) ++ digest_footer))%string).
  { intros i a Hi. rewrite Hshape.
    rewrite (nth_error_split_at D i Hi) at 1.
    rewrite digest_blocks_app. cbn [digest_blocks].
    now rewrite !string_app_assoc. }
  split; [exact Hshape|]. split; [exact Hblock|]. split; [|split].
  - intros a Ha. apply In_nth_error in Ha. destruct Ha as [i Hi].
    pose proof (Hblock i a Hi) as Hm.
    assert (Hb : contains message (article_block a))
      by (rewrite Hm; apply contains_middle).
    assert (Hh : contains message (heading a)).
    { eapply contains_trans; [exact Hb|]. unfold article_block.
      apply contains_middle. }
    assert (Hu : contains message (url a)).
    { eapply contains_trans; [exact Hb|]. unfold article_block.
      exists ("🔹 *" ++ heading a ++ "*" ++ nl ++ "[Read more](")%string,
             (")" ++ nl ++ nl)%string.
      now rewrite !string_app_assoc. }
    split; [exact Hh|]. split; [exact Hu|].
    split; now apply contains_occurs.
  - reflexivity.
  - intros t Ht. unfold digest_header.
    eapply contains_trans; [|apply join_contains; exact Ht].
    exists ("☕ **Your Daily Digest**" ++ nl ++ "_Topics: ")%string,
           ("_" ++ nl ++ nl)%string.
    now rewrite !string_app_assoc.
Qed.

Lemma renderTelegramMessage_lists_articles_witness :
  let D :=
    [ mkArticle "Crypto" "Bitcoin rallies" "https://a.example/1" (Some 2000%Z);
      mkArticle "Sports" "Cup final tonight" "https://b.example/2"
        (Some 1000%Z) ] in
  D <> []
  /\ renderTelegramMessage D ["Crypto"; "Sports"]
     = ("☕ **Your Daily Digest**" ++ nl
        ++ "_Topics: Crypto, Sports_" ++ nl ++ nl
        ++ "🔹 *Bitcoin rallies*" ++ nl
        ++ "[Read more](https://a.example/1)" ++ nl ++ nl
        ++ "🔹 *Cup final tonight*" ++ nl
        ++ "[Read more](https://b.example/2)" ++ nl ++ nl
        ++ "📅 _You will receive this daily at 9:00 AM._")%string.
Proof.
  cbv zeta.
  set (D := [mkArticle "Crypto" _ _ _; _]).
  assert (HD : D <> []) by discriminate.
  split; [exact HD|].
  rewrite (proj1 (@renderTelegramMessage_lists_articles D
                    ["Crypto"; "Sports"] HD)).
  reflexivity.
Defined.

(** The same story offered by the feeds of two topics is written by two
    blocks: its heading and its URL occur twice in the message, and the
    heading "Crypto" of an article occurs in the header as well. *)
Lemma renderTelegramMessage_repeats_heading :
  Samples.same_story <> []
  /\ In Samples.story_crypto Samples.same_story
  /\ occurrences (heading Samples.story_crypto)
       (renderTelegramMessage Samples.same_story ["Crypto"; "World News"])
     = 2
  /\ occurrences (url Samples.story_crypto)
       (renderTelegramMessage Samples.same_story ["Crypto"; "World News"])
     = 2
  /\ occurrences "Crypto"
       (renderTelegramMessage
          [mkArticle "Crypto" "Crypto" "https://c.example/3" (Some 1000%Z)]
          ["Crypto"])
     = 2.
Proof.
  split; [discriminate|]. split; [now left|].
  split; [|split]; vm_compute; reflexivity.
Qed.

(* ================================================================== *)
(** * Part III: further properties of the code *)
(* ================================================================== *)

(** ** The feed URL *)

Lemma string_app_inv_head (p a b : string) :
  (p ++ a = p ++ b)%string -> a = b.
Proof. induction p as [|c p IH]; simpl; [trivial | intros [= H]; auto]. Qed.

Lemma string_length_app (a b : string) :
  String.length (a ++ b) = String.length a + String.length b.
Proof. induction a as [|c a IH]; simpl; [reflexivity | now rewrite IH]. Qed.

Lemma string_app_inv_tail (a b c : string) :
  (a ++ c = b ++ c)%string -> a = b.
Proof.
  revert b. induction a as [|x a IH]; intros [|y b] H; simpl in H.
  - reflexivity.
  - apply (f_equal String.length) in H. simpl in H.
    rewrite string_length_app in H. lia.
  - apply (f_equal String.length) in H. simpl in H.
    rewrite string_length_app in H. lia.
  - injection H as -> H. f_equal. now apply IH.
Qed.

Lemma hex_value_digit (n : nat) : n < 16 -> hex_value (hex_digit n) = n.
Proof.
  intros H. do 16 (destruct n as [|n]; [reflexivity|]). lia.
Qed.

Lemma hex_digit_unreserved (n : nat) : unreserved (hex_digit n) = true.
Proof. do 15 (destruct n as [|n]; [reflexivity|]). reflexivity. Qed.

Lemma encodeURIComponent_inj (s1 s2 : string) :
  encodeURIComponent s1 = encodeURIComponent s2 -> s1 = s2.
Proof.
  revert s2. induction s1 as [|c1 s1 IH]; intros [|c2 s2];
    cbn [encodeURIComponent].
  - reflexivity.
  - destruct (unreserved c2); discriminate.
  - destruct (unreserved c1); discriminate.
  - destruct (unreserved c1) eqn:H1, (unreserved c2) eqn:H2.
    + intros [= -> H]. f_equal. now apply IH.
    + intros [= -> _]. discriminate H1.
    + intros [= <- _]. discriminate H2.
    + intros [= Hh Hl H]. f_equal; [|now apply IH].
      pose proof (nat_ascii_bounded c1) as B1.
      pose proof (nat_ascii_bounded c2) as B2.
      apply (f_equal hex_value) in Hh, Hl.
      change (hex_value (hex_digit (nat_of_ascii c1 / 16))
              = hex_value (hex_digit (nat_of_ascii c2 / 16))) in Hh.
      change (hex_value (hex_digit (nat_of_ascii c1 mod 16))
              = hex_value (hex_digit (nat_of_ascii c2 mod 16))) in Hl.
      rewrite !hex_value_digit in Hh, Hl
        by (try apply Nat.mod_upper_bound; try apply Nat.Div0.div_lt_upper_bound;
            lia).
      rewrite <- (ascii_nat_embedding c1), <- (ascii_nat_embedding c2).
      f_equal.
      rewrite (Nat.div_mod_eq (nat_of_ascii c1) 16),
              (Nat.div_mod_eq (nat_of_ascii c2) 16).
      now rewrite Hh, Hl.
Qed.

(** X1: two topics that differ get feed URLs that differ: the URL embeds
    the topic through [encodeURIComponent], which loses nothing. *)
Theorem feedUrl_injective (t1 t2 : string) :
  feedUrl t1 = feedUrl t2 -> t1 = t2.
Proof.
  unfold feedUrl. intros H. apply string_app_inv_head in H.
  apply string_app_inv_tail in H. now apply encodeURIComponent_inj.
Qed.

Lemma feedUrl_injective_witness :
  feedUrl "World News" = feedUrl "World News"
  /\ feedUrl "World News"
     = "https://news.google.com/rss/search?q=World%20News&hl=en-IN&gl=IN&ceid=IN:en".
Proof.
  split; [|reflexivity].
  apply (f_equal feedUrl).
  apply (@feedUrl_injective "World News" "World News"). reflexivity.
Defined.

Lemma chars_app (a b : string) : chars (a ++ b) = chars a ++ chars b.
Proof. induction a as [|c a IH]; simpl; [reflexivity | now rewrite IH]. Qed.

(** X2: whatever the topic, the feed URL is the fixed search URL with one
    value for [q] between the fixed prefix and the fixed parameters: the
    encoded topic is made of unreserved characters and [%] only, so it holds
    no [&], [=], [#], [?], [/], [+] or space that could end the value or add
    a parameter. *)
Theorem feedUrl_query_safe (t : string) :
  feedUrl t
  = ("https://news.google.com/rss/search?q=" ++ encodeURIComponent t
     ++ "&hl=en-IN&gl=IN&ceid=IN:en")%string
  /\ Forall (fun c => unreserved c = true \/ c = "%"%char)
            (chars (encodeURIComponent t))
  /\ forall c, In c (chars "&=#?/+ ") -> ~ In c (chars (encodeURIComponent t)).
Proof.
  assert (Hsafe : Forall (fun c => unreserved c = true \/ c = "%"%char)
                         (chars (encodeURIComponent t))).
  { induction t as [|c t IH]; cbn [encodeURIComponent chars]; [constructor|].
    destruct (unreserved c) eqn:Hc; cbn [chars].
    - constructor; [now left | exact IH].
    - constructor; [now right|].
      constructor; [left; apply hex_digit_unreserved|].
      constructor; [left; apply hex_digit_unreserved | exact IH]. }
  split; [reflexivity|]. split; [exact Hsafe|].
  intros c Hc Hin. rewrite Forall_forall in Hsafe.
  specialize (Hsafe c Hin). simpl in Hc.
  destruct Hc as [<-|[<-|[<-|[<-|[<-|[<-|[<-|[]]]]]]]];
    destruct Hsafe as [H|H]; discriminate H.
Qed.

(** ** Dispatch and keyboard *)



(** X4: every button of the keyboard, whatever is selected, is either the
    button of one of the eight fixed topics, labelled with a check mark
    exactly when the topic is selected and dispatched to the toggle of that
    topic, or the commit button, dispatched to the commit handler. *)
Theorem keyboard_buttons_dispatch (E : env) (u : Z) (selected : JsSet.t)
  (s : store) (b : button) :
  In b (List.concat (getTopicKeyboard selected)) ->
  (exists topic,
     In topic AVAILABLE_TOPICS
     /\ callback_data b = ("toggle_" ++ topic)%string
     /\ label b
        = (if JsSet.has topic selected then ("✅ " ++ topic)%string else topic)
     /\ handle E (CallbackQuery u (callback_data b)) s
        = toggle_action E u topic s)
  \/ (b = mkButton "🚀 Done & Fetch News" "done_selection"
      /\ handle E (CallbackQuery u (callback_data b)) s = done_selection E u s).
Proof.
  unfold getTopicKeyboard, AVAILABLE_TOPICS.
  cbn [map rows_of_two List.concat app In].
  intros H.
  repeat (destruct H as [<-|H];
          [left; eexists; split; [|split; [|split]];
           [| reflexivity | reflexivity | reflexivity];
           unfold AVAILABLE_TOPICS; simpl; tauto|]).
  destruct H as [<-|[]]. right. split; reflexivity.
Qed.

Lemma keyboard_buttons_dispatch_witness :
  let b := mkButton "✅ Crypto" "toggle_Crypto" in
  In b (List.concat (getTopicKeyboard ["Crypto"]))
  /\ handle Samples.E_dated (CallbackQuery 7 (callback_data b)) initial_store
     = toggle_action Samples.E_dated 7 "Crypto" initial_store.
Proof.
  cbv zeta.
  assert (Hin : In (mkButton "✅ Crypto" "toggle_Crypto")
                   (List.concat (getTopicKeyboard ["Crypto"])))
    by (vm_compute; tauto).
  split; [exact Hin|].
  destruct (@keyboard_buttons_dispatch Samples.E_dated 7 ["Crypto"]
              initial_store _ Hin) as [(t & _ & Hd & _ & Hh)|[Hb _]].
  - cbn [callback_data] in Hd.
    apply (@string_app_inv_head "toggle_" "Crypto" t) in Hd. subst t.
    exact Hh.
  - discriminate Hb.
Defined.

Lemma list_ind_by_two (A : Type) (P : list A -> Prop) :
  P [] -> (forall x, P [x]) -> (forall x y l, P l -> P (x :: y :: l)) ->
  forall l, P l.
Proof.
  intros H0 H1 H2 l.
  assert (H : P l /\ forall x, P (x :: l)).
  { induction l as [|y l [IH1 IH2]]; [now split|].
    split; [apply IH2 | intros x; now apply H2]. }
  apply H.
Qed.

(** X5: the loop that cuts the buttons into rows keeps every button, in
    order: row [k] is the slice [buttons.slice(2k, 2k + 2)] for each [k]
    with [2k < buttons.length], there are [ceil(n / 2)] rows, and the rows
    put end to end are the buttons. *)
Theorem rows_of_two_slices (buttons : list button) :
  (forall k,
     nth_error (rows_of_two buttons) k
     = if (2 * k <? List.length buttons)%nat
       then Some (firstn 2 (skipn (2 * k) buttons))
       else None)
  /\ List.length (rows_of_two buttons) = (List.length buttons + 1) / 2
  /\ List.concat (rows_of_two buttons) = buttons.
Proof.
  induction buttons as [|x|x y l (IHn & IHl & IHc)] using list_ind_by_two.
  - split; [|split]; try reflexivity. intros [|k]; reflexivity.
  - split; [|split]; try reflexivity. intros [|[|k]]; reflexivity.
  - split; [|split].
    + intros [|k]; [reflexivity|].
      cbn [rows_of_two nth_error]. rewrite IHn.
      replace (2 * S k) with (S (S (2 * k))) by lia.
      cbn [List.length skipn].
      destruct (Nat.ltb_spec (2 * k) (List.length l)),
               (Nat.ltb_spec (S (S (2 * k))) (S (S (List.length l))));
        try reflexivity; lia.
    + cbn [rows_of_two List.length]. rewrite IHl.
      replace (S (S (List.length l)) + 1) with (List.length l + 1 + 1 * 2)
        by lia.
      rewrite Nat.div_add by lia. lia.
    + cbn [rows_of_two List.concat app]. now rewrite IHc.
Qed.

(** ** Sessions, records and users *)

Lemma In_get_NoDup (V : Type) (m : JsMap.t V) (k : Z) (v : V) :
  NoDup (JsMap.keys m) -> In (k, v) (JsMap.entries m) ->
  JsMap.get k m = Some v.
Proof.
  unfold JsMap.keys, JsMap.entries.
  induction m as [|[k' v'] m IH]; simpl; [tauto|].
  intros Hnd [Heq|Hin].
  - injection Heq as -> ->. now rewrite Z.eqb_refl.
  - inversion Hnd as [|? ? Hk Hm]; subst.
    destruct (Z.eqb_spec k k') as [->|_]; [|now apply IH].
    elim Hk. apply in_map_iff. now exists (k', v).
Qed.

Lemma reachable_records_nonempty (s : store) :
  reachable s ->
  Forall (fun e => snd e <> []) (JsMap.entries (userPreferences s)).
Proof.
  induction 1 as [|E op s Hr IH]; [constructor|].
  destruct op as [v|v t|v|];
    try (rewrite only_commit_writes_preferences by discriminate; exact IH).
  cbn [run_operation].
  destruct (done_selection_cases E v s) as [Heq|(S & HS & _ & Heq)];
    rewrite Heq; [exact IH|].
  cbn [userPreferences]. apply Forall_forall. intros e He.
  apply In_set in He. destruct He as [->|He]; [exact HS|].
  rewrite Forall_forall in IH. now apply IH.
Qed.

Lemma reachable_records_NoDup (s : store) :
  reachable s ->
  forall u topics,
    In (u, topics) (JsMap.entries (userPreferences s)) -> NoDup topics.
Proof.
  induction 1 as [|E op s Hr IH]; intros u topics Hin; [destruct Hin|].
  destruct op as [v|v t|v|];
    try (rewrite only_commit_writes_preferences in Hin by discriminate;
         now apply IH in Hin).
  cbn [run_operation] in Hin.
  destruct (done_selection_cases E v s) as [Heq|(S & _ & Hg & Heq)];
    rewrite Heq in Hin; [now apply IH in Hin|].
  cbn [userPreferences] in Hin. apply In_set in Hin.
  destruct Hin as [Hin|Hin]; [|now apply IH in Hin].
  injection Hin as _ ->. apply In_get in Hg.
  eapply reachable_sessions_NoDup; eassumption.
Qed.

(** X6: in every store the process can reach, no Preference Record and no
    selection set lists a topic twice, and each of the two maps holds one
    entry per user at most. *)
Theorem reachable_no_duplicates (s : store) :
  reachable s ->
  (forall u topics,
     In (u, topics) (JsMap.entries (userPreferences s)) -> NoDup topics)
  /\ (forall u selected,
        In (u, selected) (JsMap.entries (selectionSession s)) ->
        NoDup selected)
  /\ NoDup (JsMap.keys (userPreferences s))
  /\ NoDup (JsMap.keys (selectionSession s)).
Proof.
  intros Hr. split; [|split].
  - now apply reachable_records_NoDup.
  - now apply reachable_sessions_NoDup.
  - now apply reachable_keys_NoDup.
Qed.

Lemma reachable_no_duplicates_witness :
  let s :=
    store_of (run_operation Samples.E_dated (Commit 7)
      (store_of (run_operation Samples.E_dated (Toggle 7 "Sports")
        (store_of (run_operation Samples.E_dated (Toggle 7 "Crypto")
          (store_of (run_operation Samples.E_dated (Toggle 7 "Sports")
            (store_of (run_operation Samples.E_dated (Toggle 7 "Sports")
                         initial_store))))))))) in
  reachable s
  /\ userPreferences s = [(7%Z, ["Crypto"; "Sports"])]
  /\ NoDup ["Crypto"; "Sports"].
Proof.
  cbv zeta. set (s := store_of (run_operation _ (Commit 7) _)).
  assert (Hr : reachable s) by (repeat apply reachable_step; constructor).
  split; [exact Hr|]. split; [reflexivity|].
  apply (proj1 (@reachable_no_duplicates s Hr) 7%Z). left. reflexivity.
Defined.

(** X7: an operation of one user leaves every other user's Preference
    Record and selection session as they were; the scheduler's tick leaves
    everybody's. *)
Theorem operations_touch_one_user (E : env) (op : operation) (s : store)
  (v : Z) :
  user_of op <> Some v ->
  JsMap.get v (userPreferences (store_of (run_operation E op s)))
  = JsMap.get v (userPreferences s)
  /\ JsMap.get v (selectionSession (store_of (run_operation E op s)))
     = JsMap.get v (selectionSession s).
Proof.
  intros Hv. destruct op as [u|u t|u|]; cbn [run_operation user_of] in *.
  - rewrite showMenu_store. cbn [userPreferences selectionSession].
    split; [reflexivity | apply get_set_other; congruence].
  - rewrite toggle_action_store. cbn [userPreferences selectionSession].
    split; [reflexivity | apply get_set_other; congruence].
  - destruct (done_selection_cases E u s) as [Heq|(S & _ & _ & Heq)];
      rewrite Heq; [now split|].
    cbn [userPreferences selectionSession].
    split; [apply get_set_other | apply get_delete_other]; congruence.
  - rewrite daily_job_preserves. now split.
Qed.

Lemma operations_touch_one_user_witness :
  let s := store_of (run_operation Samples.E_dated (Toggle 1 "Health")
                       Samples.two_users) in
  user_of (Toggle 1 "Health") <> Some 2%Z
  /\ JsMap.get 2 (userPreferences s) = Some ["World News"]
  /\ JsMap.get 2 (selectionSession s) = None.
Proof.
  cbv zeta.
  assert (H : user_of (Toggle 1 "Health") <> Some 2%Z) by discriminate.
  split; [exact H|].
  destruct (@operations_touch_one_user Samples.E_dated (Toggle 1 "Health")
              Samples.two_users 2%Z H) as [Hp Hs].
  split; [rewrite Hp | rewrite Hs]; reflexivity.
Defined.

Lemma toggle_all_preferences (E : env) (u : Z) (ts : list string) (s : store) :
  userPreferences (toggle_all E u ts s) = userPreferences s.
Proof.
  revert s. induction ts as [|t ts IH]; intros s; [reflexivity|].
  cbn [toggle_all]. rewrite IH. now rewrite toggle_action_store.
Qed.

Lemma session_of_toggle (E : env) (u : Z) (t : string) (s : store) :
  session_of (store_of (toggle_action E u t s)) u = toggled t (session_of s u).
Proof.
  rewrite toggle_action_store. unfold session_of at 1.
  cbn [selectionSession]. now rewrite get_set_same.
Qed.

Lemma toggle_all_appends (E : env) (u : Z) (ts : list string) (s : store) :
  NoDup (session_of s u ++ ts) ->
  session_of (toggle_all E u ts s) u = session_of s u ++ ts.
Proof.
  revert s. induction ts as [|t ts IH]; intros s Hnd.
  - cbn [toggle_all]. now rewrite app_nil_r.
  - cbn [toggle_all].
    assert (Ht : JsSet.has t (session_of s u) = false).
    { apply not_true_is_false. intros H. apply has_In in H.
      apply NoDup_remove_2 in Hnd. apply Hnd, in_or_app. now left. }
    assert (H1 : session_of (store_of (toggle_action E u t s)) u
                 = session_of s u ++ [t]).
    { rewrite session_of_toggle. unfold toggled, JsSet.add. now rewrite Ht. }
    rewrite IH; rewrite H1, <- app_assoc; [reflexivity | exact Hnd].
Qed.

Lemma toggle_all_session_present (E : env) (u : Z) (ts : list string)
  (s : store) :
  ts <> [] ->
  JsMap.get u (selectionSession (toggle_all E u ts s))
  = Some (session_of (toggle_all E u ts s) u).
Proof.
  revert s. induction ts as [|t ts IH]; intros s Hne; [congruence|].
  cbn [toggle_all]. destruct ts as [|t' ts].
  - cbn [toggle_all]. unfold session_of. rewrite toggle_action_store.
    cbn [selectionSession]. now rewrite get_set_same.
  - apply IH. discriminate.
Qed.

(** X8: topics are committed in the order they were selected: when a user
    whose selection set is S presses the buttons of topics that are new to
    S and distinct, one after the other, and then commits, the Preference
    Record is S followed by those topics in the order pressed. *)
Theorem commit_keeps_selection_order (E : env) (u : Z) (ts : list string)
  (s : store) :
  ts <> [] ->
  NoDup (session_of s u ++ ts) ->
  let s1 := toggle_all E u ts s in
  let s2 := store_of (done_selection E u s1) in
  session_of s1 u = session_of s u ++ ts
  /\ JsMap.get u (userPreferences s2) = Some (session_of s u ++ ts).
Proof.
  intros Hne Hnd s1 s2.
  assert (H1 : session_of s1 u = session_of s u ++ ts)
    by now apply toggle_all_appends.
  split; [exact H1|].
  pose proof (@toggle_all_session_present E u ts s Hne) as Hg.
  fold s1 in Hg. rewrite H1 in Hg.
  unfold s2. rewrite (@done_selection_store E u s1 _ Hg).
  - cbn [userPreferences]. apply get_set_same.
  - unfold JsSet.size. rewrite length_app.
    destruct ts; [congruence | simpl; lia].
Qed.

Lemma commit_keeps_selection_order_witness :
  let ts := ["World News"; "Health"; "Crypto"] in
  let s := store_of (showMenu 7 initial_store) in
  ts <> [] /\ NoDup (session_of s 7 ++ ts)
  /\ JsMap.get 7
       (userPreferences
          (store_of (done_selection Samples.E_dated 7
                       (toggle_all Samples.E_dated 7 ts s))))
     = Some ts.
Proof.
  cbv zeta. set (ts := ["World News"; "Health"; "Crypto"]).
  set (s := store_of (showMenu 7 initial_store)).
  assert (Hne : ts <> []) by discriminate.
  assert (Hnd : NoDup (session_of s 7 ++ ts)).
  { repeat constructor; simpl; intuition discriminate. }
  split; [exact Hne|]. split; [exact Hnd|].
  apply (proj2 (@commit_keeps_selection_order Samples.E_dated 7 ts s
                  Hne Hnd)).
Defined.

(** X9: opening the menu throws the uncommitted selection away: in a
    reachable store, after any presses of topic buttons by a user, the
    start or update command sets the user's selection set back to the
    committed record (the empty set for a user without one), and the
    Preference Store is as it was. *)
Theorem open_discards_selection (E : env) (u : Z) (ts : list string)
  (s : store) :
  reachable s ->
  let s1 := toggle_all E u ts s in
  let s2 := store_of (handle E (CommandUpdate u) s1) in
  JsMap.get u (selectionSession s2) = Some (record_of s u)
  /\ store_of (handle E (CommandStart u) s1) = s2
  /\ userPreferences s2 = userPreferences s.
Proof.
  intros Hr s1 s2. unfold s2. cbn [handle]. rewrite showMenu_store.
  cbn [userPreferences selectionSession]. unfold s1.
  rewrite toggle_all_preferences, get_set_same.
  split; [|split; reflexivity]. f_equal. unfold record_of.
  destruct (JsMap.get u (userPreferences s)) as [topics|] eqn:Hg;
    [|reflexivity].
  apply of_list_NoDup. apply In_get in Hg.
  eapply reachable_records_NoDup; eassumption.
Qed.

Lemma open_discards_selection_witness :
  let s :=
    store_of (run_operation Samples.E_dated (Commit 7)
      (store_of (run_operation Samples.E_dated (Toggle 7 "Crypto")
                   initial_store))) in
  let s1 := toggle_all Samples.E_dated 7 ["Health"; "Crypto"] s in
  reachable s
  /\ JsMap.get 7 (selectionSession s1) = Some ["Health"; "Crypto"]
  /\ JsMap.get 7 (selectionSession
                    (store_of (handle Samples.E_dated (CommandUpdate 7) s1)))
     = Some ["Crypto"].
Proof.
  cbv zeta. set (s := store_of (run_operation _ (Commit 7) _)).
  assert (Hr : reachable s) by (repeat apply reachable_step; constructor).
  split; [exact Hr|]. split; [reflexivity|].
  apply (proj1 (@open_discards_selection Samples.E_dated 7
                  ["Health"; "Crypto"] s Hr)).
Defined.

(** ** Users who only press the buttons shown *)

Lemma In_toggled (x t : string) (S : JsSet.t) :
  In x (toggled t S) -> x = t \/ In x S.
Proof.
  intros H. apply has_In in H. rewrite has_toggled in H.
  destruct (String.eqb_spec x t) as [->|_]; [now left|].
  right. now apply has_In.
Qed.

Lemma In_of_list (x : string) (l : list string) :
  In x (JsSet.of_list l) -> In x l.
Proof.
  intros H. apply has_In in H. rewrite of_list_equal in H. now apply has_In.
Qed.

Lemma step_topics_available (E : env) (op : operation) (s : store) :
  (forall u t, op = Toggle u t -> In t AVAILABLE_TOPICS) ->
  topics_available s ->
  topics_available (store_of (run_operation E op s)).
Proof.
  intros Hop [Hp Hs]. destruct op as [v|v t|v|]; cbn [run_operation].
  - rewrite showMenu_store. split; cbn [userPreferences selectionSession];
      [exact Hp|].
    intros u S Hin. apply In_set in Hin. destruct Hin as [Hin|Hin]; [|eauto].
    injection Hin as _ ->. intros x Hx. apply In_of_list in Hx.
    destruct (JsMap.get v (userPreferences s)) as [topics|] eqn:Hg;
      [|destruct Hx].
    apply In_get in Hg. exact (Hp _ _ Hg x Hx).
  - rewrite toggle_action_store. split; cbn [userPreferences selectionSession];
      [exact Hp|].
    intros u S Hin. apply In_set in Hin. destruct Hin as [Hin|Hin]; [|eauto].
    injection Hin as _ ->. intros x Hx. apply In_toggled in Hx.
    destruct Hx as [->|Hx]; [now apply (Hop v t)|].
    unfold session_of in Hx.
    destruct (JsMap.get v (selectionSession s)) as [S0|] eqn:Hg;
      [|destruct Hx].
    apply In_get in Hg. exact (Hs _ _ Hg x Hx).
  - destruct (done_selection_cases E v s) as [Heq|(S & _ & Hg & Heq)];
      rewrite Heq; [now split|].
    split; cbn [userPreferences selectionSession].
    + intros u topics Hin. apply In_set in Hin.
      destruct Hin as [Hin|Hin]; [|eauto].
      injection Hin as _ ->. apply In_get in Hg. exact (Hs _ _ Hg).
    + intros u S0 Hin. unfold JsMap.entries, JsMap.delete in Hin.
      apply filter_In in Hin. destruct Hin as [Hin _]. eauto.
  - rewrite daily_job_preserves. now split.
Qed.

Lemma offered_as_operation (upd : update) :
  offered upd ->
  exists op,
    (forall u t, op = Toggle u t -> In t AVAILABLE_TOPICS)
    /\ forall E s, handle E upd s = run_operation E op s.
Proof.
  intros [u|u|u data Hin].
  - exists (Open u). split; [discriminate | reflexivity].
  - exists (Open u). split; [discriminate | reflexivity].
  - unfold offered_data in Hin. cbv in Hin.
    repeat (destruct Hin as [<-|Hin];
            [eexists (Toggle u _); split; cycle 1;
             [intros E s; reflexivity
             | intros ? ? [= _ <-]; unfold AVAILABLE_TOPICS; simpl; tauto]|]).
    destruct Hin as [<-|[]].
    exists (Commit u). split; [discriminate | reflexivity].
Qed.

(** X10: a user who only types the commands and presses the buttons the
    bot shows never gets a topic outside the eight fixed ones into a
    selection set or a Preference Record. *)
Theorem buttons_keep_topics_available (s : store) :
  reachable_by_buttons s -> topics_available s.
Proof.
  induction 1 as [|E upd s Hr IH Hupd|E s Hr IH].
  - split; intros u l [].
  - destruct (offered_as_operation Hupd) as (op & Hop & Hh).
    rewrite Hh. now apply step_topics_available.
  - rewrite daily_job_preserves. exact IH.
Qed.

Lemma buttons_keep_topics_available_witness :
  let s :=
    store_of (handle Samples.E_dated (CallbackQuery 7 "done_selection")
      (store_of (handle Samples.E_dated (CallbackQuery 7 "toggle_World News")
        (store_of (handle Samples.E_dated (CommandStart 7) initial_store))))) in
  reachable_by_buttons s
  /\ userPreferences s = [(7%Z, ["World News"])]
  /\ incl ["World News"] AVAILABLE_TOPICS.
Proof.
  cbv zeta. set (s := store_of (handle _ (CallbackQuery 7 "done_selection") _)).
  assert (Hr : reachable_by_buttons s).
  { unfold s. repeat apply by_buttons_step; try apply by_buttons_initial;
      constructor; unfold offered_data; cbv; tauto. }
  split; [exact Hr|]. split; [reflexivity|].
  apply (proj1 (@buttons_keep_topics_available s Hr) 7%Z). left. reflexivity.
Defined.

(** ** After a commit *)

(** X11: the session does not outlive its commit: right after a
    successful commit a second press of the commit button is rejected with
    the notice, sends no digest and leaves the store alone. *)
Theorem second_commit_rejected (E E' : env) (u : Z) (s : store)
  (S : JsSet.t) :
  JsMap.get u (selectionSession s) = Some S ->
  JsSet.size S <> 0 ->
  let s1 := store_of (done_selection E u s) in
  done_selection E' u s1
  = (telegram E' (AnswerCbQuery u (Some "Select at least one!")), s1,
     [AnswerCbQuery u (Some "Select at least one!")]).
Proof.
  intros Hg Hsz s1. apply done_selection_rejected. unfold nothing_selected.
  unfold s1. rewrite (@done_selection_store E u s S Hg Hsz).
  cbn [selectionSession]. now rewrite get_delete_same.
Qed.

Lemma second_commit_rejected_witness :
  let s := store_of (toggle_action Samples.E_dated 7 "Crypto" initial_store) in
  let s1 := store_of (done_selection Samples.E_dated 7 s) in
  JsMap.get 7 (selectionSession s) = Some ["Crypto"]
  /\ JsSet.size ["Crypto"] <> 0
  /\ trace_of (done_selection Samples.E_dated 7 s1)
     = [AnswerCbQuery 7 (Some "Select at least one!")]
  /\ store_of (done_selection Samples.E_dated 7 s1) = s1.
Proof.
  cbv zeta.
  set (s := store_of (toggle_action Samples.E_dated 7 "Crypto" initial_store)).
  assert (Hg : JsMap.get 7 (selectionSession s) = Some ["Crypto"])
    by reflexivity.
  assert (Hsz : JsSet.size ["Crypto"] <> 0) by discriminate.
  split; [exact Hg|]. split; [exact Hsz|].
  rewrite (@second_commit_rejected Samples.E_dated Samples.E_dated 7 s
             ["Crypto"] Hg Hsz).
  split; reflexivity.
Defined.

(** X12: a topic pressed on the menu left over from a commit starts from
    the empty set, not from the committed record: after a successful commit
    of S, one press of topic t followed by a commit replaces the record by
    t alone, whether or not t was in S. *)
Theorem stale_toggle_replaces_record (E1 E2 E3 : env) (u : Z) (t : string)
  (s : store) (S : JsSet.t) :
  JsMap.get u (selectionSession s) = Some S ->
  JsSet.size S <> 0 ->
  let s1 := store_of (done_selection E1 u s) in
  let s2 := store_of (toggle_action E2 u t s1) in
  let s3 := store_of (done_selection E3 u s2) in
  JsMap.get u (userPreferences s1) = Some (JsSet.to_list S)
  /\ JsMap.get u (selectionSession s2) = Some [t]
  /\ JsMap.get u (userPreferences s3) = Some [t].
Proof.
  intros Hg Hsz s1 s2 s3.
  assert (H1 : s1 = {| userPreferences :=
                         JsMap.set u (JsSet.to_list S) (userPreferences s);
                       selectionSession :=
                         JsMap.delete u (selectionSession s) |})
    by now apply done_selection_store.
  assert (H2 : JsMap.get u (selectionSession s2) = Some [t]).
  { unfold s2. rewrite toggle_action_store. cbn [selectionSession].
    rewrite get_set_same. unfold session_of. rewrite H1.
    cbn [selectionSession]. now rewrite get_delete_same. }
  split; [rewrite H1; apply get_set_same|]. split; [exact H2|].
  unfold s3. rewrite (@done_selection_store E3 u s2 [t] H2) by discriminate.
  apply get_set_same.
Qed.

Lemma stale_toggle_replaces_record_witness :
  let s :=
    toggle_all Samples.E_dated 7 ["Crypto"; "Sports"] initial_store in
  let s3 :=
    store_of (done_selection Samples.E_dated 7
      (store_of (toggle_action Samples.E_dated 7 "Crypto"
        (store_of (done_selection Samples.E_dated 7 s))))) in
  JsMap.get 7 (selectionSession s) = Some ["Crypto"; "Sports"]
  /\ JsSet.size ["Crypto"; "Sports"] <> 0
  /\ JsMap.get 7 (userPreferences s3) = Some ["Crypto"].
Proof.
  cbv zeta.
  set (s := toggle_all Samples.E_dated 7 ["Crypto"; "Sports"] initial_store).
  assert (Hg : JsMap.get 7 (selectionSession s) = Some ["Crypto"; "Sports"])
    by reflexivity.
  assert (Hsz : JsSet.size ["Crypto"; "Sports"] <> 0) by discriminate.
  split; [exact Hg|]. split; [exact Hsz|].
  apply (@stale_toggle_replaces_record Samples.E_dated Samples.E_dated
           Samples.E_dated 7 "Crypto" s _ Hg Hsz).
Defined.

(** X13: a commit keeps the user's place in the Preference Store: the
    users of the store after a successful commit are the users before it, in
    the same order, with the committing user added at the end when new; so
    the daily job serves users in the order of their first commit. *)
Theorem commit_keeps_position (E : env) (u : Z) (s : store) (S : JsSet.t) :
  JsMap.get u (selectionSession s) = Some S ->
  JsSet.size S <> 0 ->
  JsMap.keys (userPreferences (store_of (done_selection E u s)))
  = if JsMap.has u (userPreferences s)
    then JsMap.keys (userPreferences s)
    else JsMap.keys (userPreferences s) ++ [u].
Proof.
  intros Hg Hsz. rewrite (@done_selection_store E u s S Hg Hsz).
  cbn [userPreferences]. apply keys_set.
Qed.

Lemma commit_keeps_position_witness :
  let s := toggle_all Samples.E_dated 1 ["Health"] Samples.two_users in
  let s' := toggle_all Samples.E_dated 9 ["Health"] Samples.two_users in
  JsMap.get 1 (selectionSession s) = Some ["Health"]
  /\ JsSet.size ["Health"] <> 0
  /\ userPreferences (store_of (done_selection Samples.E_dated 1 s))
     = [(1%Z, ["Health"]); (2%Z, ["World News"])]
  /\ JsMap.keys (userPreferences (store_of (done_selection Samples.E_dated 1 s)))
     = [1%Z; 2%Z]
  /\ JsMap.keys (userPreferences (store_of (done_selection Samples.E_dated 9 s')))
     = [1%Z; 2%Z; 9%Z].
Proof.
  cbv zeta.
  set (s := toggle_all Samples.E_dated 1 ["Health"] Samples.two_users).
  set (s' := toggle_all Samples.E_dated 9 ["Health"] Samples.two_users).
  assert (Hg : JsMap.get 1 (selectionSession s) = Some ["Health"])
    by reflexivity.
  assert (Hg' : JsMap.get 9 (selectionSession s') = Some ["Health"])
    by reflexivity.
  assert (Hsz : JsSet.size ["Health"] <> 0) by discriminate.
  split; [exact Hg|]. split; [exact Hsz|]. split; [reflexivity|].
  rewrite (@commit_keeps_position Samples.E_dated 1 s _ Hg Hsz).
  rewrite (@commit_keeps_position Samples.E_dated 9 s' _ Hg' Hsz).
  split; reflexivity.
Defined.

(** ** The send pipeline *)

Lemma sendDigestToUser_hint (E : env) (u : Z) (s : store) :
  record_of s u = [] ->
  sendDigestToUser E u s
  = (telegram E (SendMessage u setup_hint Plain), s,
     [SendMessage u setup_hint Plain]).
Proof.
  unfold record_of, sendDigestToUser, bind, read, sendMessage, call.
  destruct (JsMap.get u (userPreferences s)) as [topics|]; [|reflexivity].
  intros ->. reflexivity.
Qed.

Lemma sendDigestToUser_digest (E : env) (u : Z) (s : store)
  (topics : list string) :
  JsMap.get u (userPreferences s) = Some topics -> topics <> [] ->
  let digest := firstn 8 (Array_sort (engine_order E) newest_first (gathered E topics)) in
  let final :=
    SendMessage u (renderTelegramMessage digest topics) Markdown in
  sendDigestToUser E u s
  = match telegram E (SendMessage u fetching_notice Plain) with
    | Rejected e => (Rejected e, s, [SendMessage u fetching_notice Plain])
    | Resolved _ =>
        (telegram E final, s,
         SendMessage u fetching_notice Plain
         :: fetch_calls E topics ++ [final])
    end.
Proof.
  intros Hg Hne digest final.
  unfold sendDigestToUser, bind at 1, read. rewrite Hg.
  destruct topics as [|t ts]; [congruence|].
  cbn [List.length Nat.eqb]. unfold bind at 1, sendMessage at 1, call at 1.
  unfold fetching_notice.
  destruct (telegram E (SendMessage u _ Plain)) as [[]|e]; [|reflexivity].
  unfold bind. rewrite fetchMixedNews_run. unfold sendMessage, call.
  cbv beta iota. reflexivity.
Qed.

Lemma sendDigestToUser_requests (E : env) (u : Z) (s : store)
  (topics : list string) :
  JsMap.get u (userPreferences s) = Some topics -> topics <> [] ->
  telegram E (SendMessage u fetching_notice Plain) = Resolved tt ->
  requests (trace_of (sendDigestToUser E u s)) = map feedUrl topics.
Proof.
  intros Hg Hne Hok. rewrite (@sendDigestToUser_digest E u s topics Hg Hne).
  rewrite Hok. cbv zeta. unfold trace_of. cbn [snd requests].
  rewrite requests_app, requests_fetch. cbn [requests].
  now rewrite app_nil_r.
Qed.

(** X14: a user without a Preference Record (or with an empty one) who is
    sent a digest gets the hint to use /update and nothing else: no feed is
    requested and the store is not touched. *)
Theorem sendDigestToUser_without_preferences (E : env) (u : Z) (s : store) :
  record_of s u = [] ->
  trace_of (sendDigestToUser E u s)
  = [SendMessage u "⚠️ Use /update to setup your topics." Plain]
  /\ requests (trace_of (sendDigestToUser E u s)) = []
  /\ result_of (sendDigestToUser E u s)
     = telegram E (SendMessage u "⚠️ Use /update to setup your topics." Plain)
  /\ store_of (sendDigestToUser E u s) = s.
Proof.
  intros H. rewrite (@sendDigestToUser_hint E u s H).
  repeat split.
Qed.

Lemma sendDigestToUser_without_preferences_witness :
  record_of Samples.two_users 5 = []
  /\ trace_of (sendDigestToUser Samples.E_dated 5 Samples.two_users)
     = [SendMessage 5 "⚠️ Use /update to setup your topics." Plain].
Proof.
  assert (H : record_of Samples.two_users 5 = []) by reflexivity.
  split; [exact H|].
  apply (proj1 (@sendDigestToUser_without_preferences Samples.E_dated 5
                  Samples.two_users H)).
Defined.

(** X15: for a user with a non-empty Preference Record the pipeline first
    sends the "Fetching" notice; if that send is rejected nothing is
    fetched and the rejection is the outcome; otherwise the feed of every
    topic of the record is requested, in the order of the record and before
    any failure is logged; then one line is logged per failing topic (in
    the order in which the failures arrive, which the record does not
    fix); and one last message is sent in Markdown: the rendering of what
    fetchMixedNews returns for the record, with the record as topics; the
    outcome is that of this last send. *)
Theorem sendDigestToUser_pipeline (E : env) (u : Z) (s : store)
  (topics : list string) :
  JsMap.get u (userPreferences s) = Some topics ->
  topics <> [] ->
  exists digest,
    result_of (fetchMixedNews E topics s) = Resolved digest
    /\ let notice := SendMessage u "🔍 Fetching latest headlines..." Plain in
       let final :=
         SendMessage u (renderTelegramMessage digest topics) Markdown in
       (forall e, telegram E notice = Rejected e ->
                  sendDigestToUser E u s = (Rejected e, s, [notice]))
       /\ (telegram E notice = Resolved tt ->
           result_of (sendDigestToUser E u s) = telegram E final
           /\ (exists logged,
                 trace_of (sendDigestToUser E u s)
                 = notice
                   :: map (fun t => ParseURL (feedUrl t)) topics
                   ++ logged ++ [final]
                 /\ Permutation logged (flat_map (fetch_error E) topics))
           /\ requests (trace_of (sendDigestToUser E u s))
              = map feedUrl topics).
Proof.
  intros Hg Hne. rewrite fetchMixedNews_run. eexists. split; [reflexivity|].
  cbv zeta. rewrite (@sendDigestToUser_digest E u s topics Hg Hne).
  unfold fetching_notice. split.
  - intros e ->. reflexivity.
  - intros ->. cbv zeta. unfold result_of, trace_of. cbn [fst snd].
    split; [reflexivity|]. split.
    + eexists. split; [|apply fetch_errors_perm].
      unfold fetch_calls. now rewrite <- app_assoc.
    + cbn [requests]. rewrite requests_app, requests_fetch. cbn [requests].
      now rewrite app_nil_r.
Qed.

Lemma sendDigestToUser_pipeline_witness :
  JsMap.get 2 (userPreferences Samples.two_users) = Some ["World News"]
  /\ ["World News"] <> []
  /\ trace_of (sendDigestToUser Samples.E_dated 2 Samples.two_users)
     = [ SendMessage 2 "🔍 Fetching latest headlines..." Plain;
         ParseURL (feedUrl "World News");
         SendMessage 2
           (renderTelegramMessage
              (map (to_article "World News")
                 [ Samples.an_item "w2" (Some 2500%Z);
                   Samples.an_item "w1" (Some 1500%Z) ])
              ["World News"])
           Markdown ].
Proof.
  assert (Hg : JsMap.get 2 (userPreferences Samples.two_users)
               = Some ["World News"]) by reflexivity.
  assert (Hne : ["World News"] <> []) by discriminate.
  split; [exact Hg|]. split; [exact Hne|].
  destruct (@sendDigestToUser_pipeline Samples.E_dated 2 Samples.two_users
              ["World News"] Hg Hne) as (digest & Hd & _ & Hok).
  destruct (Hok eq_refl) as (_ & (logged & Ht & Hp) & _). rewrite Ht.
  assert (Hlog : logged = []) by (apply Permutation_nil; symmetry; exact Hp).
  assert (Hdig : digest
                 = map (to_article "World News")
                     [ Samples.an_item "w2" (Some 2500%Z);
                       Samples.an_item "w1" (Some 1500%Z) ]).
  { assert (H : Resolved digest
                = Resolved (map (to_article "World News")
                              [ Samples.an_item "w2" (Some 2500%Z);
                                Samples.an_item "w1" (Some 1500%Z) ]))
      by (rewrite <- Hd; reflexivity).
    congruence. }
  rewrite Hdig, Hlog. reflexivity.
Defined.

Lemma flat_map_no_articles (E : env) (q : number) (topics : list string) :
  (forall t, In t topics ->
     match parseURL E (feedUrl t) with
     | Resolved feed => feed = []
     | Rejected _ => True
     end) ->
  flat_map (topic_articles E q) topics = [].
Proof.
  induction topics as [|t ts IH]; intros H; [reflexivity|].
  cbn [flat_map]. rewrite IH by (intros t' Ht'; apply H; now right).
  rewrite app_nil_r. unfold topic_articles.
  specialize (H t (or_introl eq_refl)).
  destruct (parseURL E (feedUrl t)) as [feed|e]; [|reflexivity].
  subst feed. destruct q as [[|k]|]; reflexivity.
Qed.

(** X16: when no topic of the record yields an item (each fetch fails or
    answers an empty feed), the user is still answered: after the notice,
    the requests (one per topic, in the order of the record) and the lines
    logged for the failing topics (as the failures arrive), the fixed
    "No news found" message is sent. *)
Theorem sendDigestToUser_no_news (E : env) (u : Z) (s : store)
  (topics : list string) :
  JsMap.get u (userPreferences s) = Some topics ->
  topics <> [] ->
  (forall t, In t topics ->
     match parseURL E (feedUrl t) with
     | Resolved feed => feed = []
     | Rejected _ => True
     end) ->
  telegram E (SendMessage u "🔍 Fetching latest headlines..." Plain)
  = Resolved tt ->
  exists logged,
    trace_of (sendDigestToUser E u s)
    = SendMessage u "🔍 Fetching latest headlines..." Plain
      :: map (fun t => ParseURL (feedUrl t)) topics
      ++ logged
      ++ [SendMessage u "⚠️ No news found right now." Markdown]
    /\ Permutation logged (flat_map (fetch_error E) topics).
Proof.
  intros Hg Hne Hnone Hok.
  rewrite (@sendDigestToUser_digest E u s topics Hg Hne).
  unfold fetching_notice. rewrite Hok. cbv zeta. unfold trace_of. cbn [snd].
  assert (Hgath : gathered E topics = [])
    by (apply flat_map_no_articles; exact Hnone).
  rewrite Hgath. eexists. split; [|apply fetch_errors_perm].
  unfold fetch_calls. rewrite <- app_assoc. reflexivity.
Qed.

Lemma sendDigestToUser_no_news_witness :
  let s := {| userPreferences := [(3%Z, ["Health"; "Science"])];
              selectionSession := [] |} in
  JsMap.get 3 (userPreferences s) = Some ["Health"; "Science"]
  /\ exists logged,
       trace_of (sendDigestToUser Samples.E_offline 3 s)
       = SendMessage 3 "🔍 Fetching latest headlines..." Plain
         :: [ParseURL (feedUrl "Health"); ParseURL (feedUrl "Science")]
         ++ logged
         ++ [SendMessage 3 "⚠️ No news found right now." Markdown]
       /\ Permutation logged
            [ ConsoleError "Error fetching Health:" "getaddrinfo ENOTFOUND";
              ConsoleError "Error fetching Science:" "getaddrinfo ENOTFOUND" ].
Proof.
  cbv zeta.
  set (s := {| userPreferences := [(3%Z, ["Health"; "Science"])];
               selectionSession := [] |}).
  assert (Hg : JsMap.get 3 (userPreferences s) = Some ["Health"; "Science"])
    by reflexivity.
  split; [exact Hg|].
  apply (@sendDigestToUser_no_news Samples.E_offline 3 s
           ["Health"; "Science"] Hg).
  - discriminate.
  - intros t [<-|[<-|[]]]; exact I.
  - reflexivity.
Defined.

(** The same run, written out: both feeds are requested before either
    failure is logged, and the failure for "Health", which arrives last,
    is logged last. *)
Example sendDigestToUser_logs_failures_as_they_arrive :
  trace_of (sendDigestToUser Samples.E_offline 3
              {| userPreferences := [(3%Z, ["Health"; "Science"])];
                 selectionSession := [] |})
  = [ SendMessage 3 "🔍 Fetching latest headlines..." Plain;
      ParseURL (feedUrl "Health");
      ParseURL (feedUrl "Science");
      ConsoleError "Error fetching Science:" "getaddrinfo ENOTFOUND";
      ConsoleError "Error fetching Health:" "getaddrinfo ENOTFOUND";
      SendMessage 3 "⚠️ No news found right now." Markdown ].
Proof. reflexivity. Qed.

(** ** The scheduler, again *)

Lemma for_of_trace_In (E : env) (s : store) (l : list (Z * list string))
  (ev : event) :
  In ev (trace_of (for_of l (fun entry => sendDigestToUser E (fst entry)) s)) ->
  exists x, In x l /\ In ev (trace_of (sendDigestToUser E (fst x) s)).
Proof.
  induction l as [|x l IH]; [intros []|].
  cbn [for_of]. rewrite trace_of_bind. intros H. apply in_app_or in H.
  destruct H as [H|H].
  - exists x. split; [now left | exact H].
  - destruct (result_of (sendDigestToUser E (fst x) s)); [|destruct H].
    rewrite (sendDigestToUser_preserves E (fst x) s) in H.
    destruct (IH H) as (y & Hy & Hev). exists y. split; [now right | exact Hev].
Qed.

Lemma daily_job_trace (E : env) (s : store) :
  trace_of (daily_job E s)
  = ConsoleLog "⏰ Running daily digest job at 9 AM..."
    :: trace_of (for_of (JsMap.entries (userPreferences s))
                   (fun entry => sendDigestToUser E (fst entry)) s).
Proof.
  unfold daily_job. rewrite trace_of_bind.
  unfold emit at 1 2 3. cbn [trace_of result_of store_of fst snd].
  rewrite trace_of_bind.
  unfold read at 1 2 3. cbn [trace_of result_of store_of fst snd app].
  reflexivity.
Qed.

Lemma render_is_not_hint (digest : list article) (topics : list string) :
  renderTelegramMessage digest topics <> setup_hint.
Proof.
  destruct digest as [|a D]; [discriminate|].
  rewrite renderTelegramMessage_shape by discriminate.
  unfold digest_header, setup_hint. simpl. discriminate.
Qed.

(** X17: in a reachable store the daily job writes to users of the
    Preference Store only, and never the hint to use /update: every user it
    reaches has topics to fetch. *)
Theorem daily_job_never_sends_hint (E : env) (s : store) :
  reachable s ->
  forall c text mode,
    In (SendMessage c text mode) (trace_of (daily_job E s)) ->
    In c (JsMap.keys (userPreferences s))
    /\ text <> "⚠️ Use /update to setup your topics.".
Proof.
  intros Hr c text mode Hin. rewrite daily_job_trace in Hin.
  destruct Hin as [Hin|Hin]; [discriminate|].
  apply for_of_trace_In in Hin. destruct Hin as ([k topics] & Hx & Hev).
  cbn [fst] in Hev.
  assert (Hg : JsMap.get k (userPreferences s) = Some topics)
    by (apply In_get_NoDup; [now apply reachable_keys_NoDup | exact Hx]).
  assert (Hne : topics <> []).
  { pose proof (reachable_records_nonempty Hr) as Hall.
    rewrite Forall_forall in Hall. exact (Hall _ Hx). }
  assert (Hk : In k (JsMap.keys (userPreferences s))).
  { unfold JsMap.keys. apply in_map_iff. now exists (k, topics). }
  rewrite (@sendDigestToUser_digest E k s topics Hg Hne) in Hev.
  cbv zeta in Hev. unfold trace_of in Hev.
  destruct (telegram E (SendMessage k fetching_notice Plain)) as [[]|e];
    cbn [snd] in Hev.
  - destruct Hev as [Hev|Hev].
    + injection Hev as <- <- <-. split; [exact Hk | discriminate].
    + apply in_app_or in Hev. destruct Hev as [Hev|[Hev|[]]].
      * elim (@fetch_calls_no_message E topics _ Hev c text mode). reflexivity.
      * injection Hev as <- <- <-. split; [exact Hk|].
        apply render_is_not_hint.
  - destruct Hev as [Hev|[]]. injection Hev as <- <- <-.
    split; [exact Hk | discriminate].
Qed.

Lemma daily_job_never_sends_hint_witness :
  let s :=
    store_of (run_operation Samples.E_dated (Commit 7)
      (store_of (run_operation Samples.E_dated (Toggle 7 "Crypto")
                   initial_store))) in
  reachable s
  /\ In (SendMessage 7 "🔍 Fetching latest headlines..." Plain)
        (trace_of (daily_job Samples.E_dated s))
  /\ In 7%Z (JsMap.keys (userPreferences s)).
Proof.
  cbv zeta. set (s := store_of (run_operation _ (Commit 7) _)).
  assert (Hr : reachable s) by (repeat apply reachable_step; constructor).
  assert (Hin : In (SendMessage 7 "🔍 Fetching latest headlines..." Plain)
                   (trace_of (daily_job Samples.E_dated s)))
    by (vm_compute; tauto).
  split; [exact Hr|]. split; [exact Hin|].
  apply (proj1 (@daily_job_never_sends_hint Samples.E_dated s Hr _ _ _ Hin)).
Defined.

Lemma for_of_trace_all (E : env) (s : store) (l : list (Z * list string)) :
  (forall v, In v (map fst l) ->
     result_of (sendDigestToUser E v s) = Resolved tt) ->
  trace_of (for_of l (fun entry => sendDigestToUser E (fst entry)) s)
  = flat_map (fun v => trace_of (sendDigestToUser E v s)) (map fst l).
Proof.
  induction l as [|x l IH]; intros Hok; [reflexivity|].
  cbn [for_of map flat_map]. rewrite trace_of_bind.
  rewrite (Hok (fst x)) by now left.
  rewrite (sendDigestToUser_preserves E (fst x) s).
  rewrite IH by (intros v Hv; apply Hok; now right). reflexivity.
Qed.

(** X18: when no send fails, the daily job logs its start and then runs
    the pipeline once per user of the Preference Store, one user after the
    other in the order of the store: its calls are the log line followed by
    the calls of each user's digest, and it leaves the store as it was. *)
Theorem daily_job_serves_in_order (E : env) (s : store) :
  (forall v, In v (JsMap.keys (userPreferences s)) ->
     result_of (sendDigestToUser E v s) = Resolved tt) ->
  trace_of (daily_job E s)
  = ConsoleLog "⏰ Running daily digest job at 9 AM..."
    :: flat_map (fun v => trace_of (sendDigestToUser E v s))
         (JsMap.keys (userPreferences s))
  /\ store_of (daily_job E s) = s.
Proof.
  intros Hok. split; [|apply daily_job_preserves].
  rewrite daily_job_trace. f_equal. now apply for_of_trace_all.
Qed.

Lemma daily_job_serves_in_order_witness :
  trace_of (daily_job Samples.E_dated Samples.two_users)
  = ConsoleLog "⏰ Running daily digest job at 9 AM..."
    :: trace_of (sendDigestToUser Samples.E_dated 1 Samples.two_users)
    ++ trace_of (sendDigestToUser Samples.E_dated 2 Samples.two_users).
Proof.
  assert (Hok : forall v,
            In v (JsMap.keys (userPreferences Samples.two_users)) ->
            result_of (sendDigestToUser Samples.E_dated v Samples.two_users)
            = Resolved tt)
    by (intros v [<-|[<-|[]]]; reflexivity).
  rewrite (proj1 (@daily_job_serves_in_order Samples.E_dated
                    Samples.two_users Hok)).
  cbn [JsMap.keys Samples.two_users userPreferences map fst flat_map].
  now rewrite app_nil_r.
Defined.

(** ** The digest, again *)

Lemma StronglySorted_app_cross (A : Type) (R : A -> A -> Prop)
  (l1 l2 : list A) :
  StronglySorted R (l1 ++ l2) ->
  forall a b, In a l1 -> In b l2 -> R a b.
Proof.
  induction l1 as [|x l1 IH]; intros Hs a b Ha Hb; [destruct Ha|].
  cbn [app] in Hs. inversion Hs as [|? ? Hs' Hx]; subst.
  destruct Ha as [<-|Ha].
  - rewrite Forall_forall in Hx. apply Hx, in_or_app. now right.
  - now apply IH.
Qed.

(** X19: with valid publish dates the digest is the newest part of what
    was gathered: it holds min(8, number gathered) articles, the gathered
    articles are those of the digest and the ones left out, and no article
    left out is newer than an article of the digest. *)
Theorem fetchMixedNews_keeps_newest (E : env) (T : list string) (s : store) :
  Forall valid_date (gathered E T) ->
  exists digest left_out,
    result_of (fetchMixedNews E T s) = Resolved digest
    /\ List.length digest = Nat.min 8 (List.length (gathered E T))
    /\ Permutation (gathered E T) (digest ++ left_out)
    /\ forall a b, In a digest -> In b left_out -> not_older a b.
Proof.
  intros Hv. rewrite fetchMixedNews_run.
  set (sorted := Array_sort (engine_order E) newest_first (gathered E T)).
  exists (firstn 8 sorted), (skipn 8 sorted).
  split; [reflexivity|]. split; [|split].
  - rewrite length_firstn. unfold sorted. now rewrite Array_sort_length.
  - rewrite firstn_skipn. apply Permutation_sym, Array_sort_perm.
  - apply StronglySorted_app_cross. rewrite firstn_skipn.
    now apply Array_sort_sorted.
Qed.

Lemma fetchMixedNews_keeps_newest_witness :
  let feed :=
    map (fun n => Samples.an_item "n" (Some (Z.of_nat n)))
        [3; 9; 1; 7; 5; 10; 2; 8; 6; 4] in
  let E := mkEnv (Samples.feeds [("Crypto", feed)]) Samples.always_delivers in
  Forall valid_date (gathered E ["Crypto"])
  /\ exists digest,
       result_of (fetchMixedNews E ["Crypto"] initial_store) = Resolved digest
       /\ map date digest
          = map (fun n => Some (Z.of_nat n)) [10; 9; 8; 7; 5; 3; 2; 1].
Proof.
  cbv zeta.
  set (E := mkEnv _ Samples.always_delivers).
  assert (Hv : Forall valid_date (gathered E ["Crypto"]))
    by (vm_compute; repeat constructor; discriminate).
  split; [exact Hv|].
  destruct (@fetchMixedNews_keeps_newest E ["Crypto"] initial_store Hv)
    as (digest & left_out & Hr & _).
  exists digest. split; [exact Hr|].
  assert (H : Resolved digest
              = result_of (fetchMixedNews E ["Crypto"] initial_store))
    by now rewrite Hr.
  vm_compute in H. injection H as ->. reflexivity.
Defined.

(** X23: with valid publish dates, articles of equal publish time keep
    the order in which they were gathered (topic order, then feed order),
    and the cut at eight drops them from the end only: at each time value,
    those of the digest are the first of those gathered. *)
Theorem fetchMixedNews_ties_in_order (E : env) (T : list string) (s : store) :
  Forall valid_date (gathered E T) ->
  exists digest,
    result_of (fetchMixedNews E T s) = Resolved digest
    /\ forall d, exists dropped,
         dated d (gathered E T) = dated d digest ++ dropped.
Proof.
  intros Hv. rewrite fetchMixedNews_run. eexists. split; [reflexivity|].
  intros d.
  exists (dated d (skipn 8 (Array_sort (engine_order E) newest_first (gathered E T)))).
  rewrite <- (Array_sort_stable (engine_order E) d Hv).
  unfold dated. rewrite <- filter_app. now rewrite firstn_skipn.
Qed.

Lemma fetchMixedNews_ties_in_order_witness :
  let E :=
    mkEnv (Samples.feeds
             [ ("Crypto", [ Samples.an_item "a" (Some 5%Z);
                            Samples.an_item "b" (Some 5%Z);
                            Samples.an_item "c" (Some 7%Z) ]);
               ("World News", [ Samples.an_item "d" (Some 5%Z) ]) ])
          Samples.always_delivers in
  Forall valid_date (gathered E ["Crypto"; "World News"])
  /\ exists digest,
       result_of (fetchMixedNews E ["Crypto"; "World News"] initial_store)
       = Resolved digest
       /\ map heading digest = ["c"; "a"; "b"; "d"]
       /\ exists dropped,
            dated 5 (gathered E ["Crypto"; "World News"])
            = dated 5 digest ++ dropped.
Proof.
  cbv zeta.
  set (E := mkEnv _ Samples.always_delivers).
  assert (Hv : Forall valid_date (gathered E ["Crypto"; "World News"]))
    by (vm_compute; repeat constructor; discriminate).
  split; [exact Hv|].
  destruct (@fetchMixedNews_ties_in_order E ["Crypto"; "World News"]
              initial_store Hv) as (digest & Hr & Hd).
  exists digest. split; [exact Hr|]. split; [|exact (Hd 5%Z)].
  assert (H : Resolved digest
              = result_of (fetchMixedNews E ["Crypto"; "World News"]
                             initial_store))
    by now rewrite Hr.
  vm_compute in H. injection H as ->. reflexivity.
Defined.








(** ** The handlers' calls *)

(** X21: a toggle is acknowledged whatever happens to the menu: the
    handler asks for the keyboard of the new selection to be shown, and
    whether that call resolves or is rejected it answers the callback query
    next; the outcome of the handler is the outcome of that answer, and the
    new selection is stored. *)
Theorem toggle_action_acknowledged (E : env) (u : Z) (t : string)
  (s : store) :
  let selected := toggled t (session_of s u) in
  trace_of (toggle_action E u t s)
  = [ EditMessageReplyMarkup u (getTopicKeyboard selected);
      AnswerCbQuery u None ]
  /\ result_of (toggle_action E u t s) = telegram E (AnswerCbQuery u None)
  /\ JsMap.get u (selectionSession (store_of (toggle_action E u t s)))
     = Some selected.
Proof.
  intros selected. split; [|split].
  - unfold toggle_action, bind, read, write, try_catch, call, ret, trace_of.
    cbn [fst snd].
    fold (session_of s u). fold (toggled t (session_of s u)). fold selected.
    destruct (telegram E (EditMessageReplyMarkup u _)) as [[]|e];
      destruct (telegram E (AnswerCbQuery u None)) as [[]|e']; reflexivity.
  - unfold toggle_action, bind, read, write, try_catch, call, ret, result_of.
    cbn [fst snd].
    destruct (telegram E (EditMessageReplyMarkup u _)) as [[]|e];
      destruct (telegram E (AnswerCbQuery u None)) as [[]|e']; reflexivity.
  - rewrite toggle_action_store. cbn [selectionSession].
    apply get_set_same.
Qed.

(** X22: a commit is not undone by what follows it.  When the
    confirmation cannot be shown (editMessageText is rejected) the handler
    is rejected and no digest is sent, yet the record is written and the
    session removed; when it is shown, the handler goes on with the send
    pipeline for the user in the store just written, so that the feeds
    requested are those of the committed topics, in their order. *)
Theorem done_selection_then_digest (E : env) (u : Z) (s : store)
  (S : JsSet.t) :
  JsMap.get u (selectionSession s) = Some S ->
  JsSet.size S <> 0 ->
  let s1 :=
    {| userPreferences := JsMap.set u (JsSet.to_list S) (userPreferences s);
       selectionSession := JsMap.delete u (selectionSession s) |} in
  let confirm := EditMessageText u "✅ Preferences Updated!" in
  (forall e, telegram E confirm = Rejected e ->
             done_selection E u s = (Rejected e, s1, [confirm]))
  /\ (telegram E confirm = Resolved tt ->
      done_selection E u s
      = (result_of (sendDigestToUser E u s1), s1,
         confirm :: trace_of (sendDigestToUser E u s1))
      /\ (telegram E (SendMessage u "🔍 Fetching latest headlines..." Plain)
          = Resolved tt ->
          requests (trace_of (done_selection E u s))
          = map feedUrl (JsSet.to_list S))).
Proof.
  intros Hg Hsz s1 confirm.
  assert (Hrun : done_selection E u s
                 = match telegram E confirm with
                   | Resolved _ =>
                       (result_of (sendDigestToUser E u s1), s1,
                        confirm :: trace_of (sendDigestToUser E u s1))
                   | Rejected e => (Rejected e, s1, [confirm])
                   end).
  { unfold done_selection, bind at 1, read. rewrite Hg.
    apply Nat.eqb_neq in Hsz. rewrite Hsz.
    unfold bind at 1, write at 1. unfold bind at 1, write at 1.
    cbn [userPreferences selectionSession]. fold s1.
    unfold bind, call. fold confirm.
    destruct (telegram E confirm) as [[]|e]; [|reflexivity].
    pose proof (sendDigestToUser_preserves E u s1) as Hp.
    unfold store_of, result_of, trace_of in *.
    destruct (sendDigestToUser E u s1) as [[r s2] tr]. cbn [fst snd] in *.
    now subst s2. }
  split.
  - intros e He. now rewrite Hrun, He.
  - intros He. rewrite Hrun, He. split; [reflexivity|].
    intros Hn. unfold trace_of at 1. cbn [snd requests].
    assert (Hrec : JsMap.get u (userPreferences s1) = Some (JsSet.to_list S))
      by apply get_set_same.
    assert (Hne : JsSet.to_list S <> [])
      by (unfold JsSet.to_list; destruct S; [elim Hsz; reflexivity
                                            | discriminate]).
    now apply sendDigestToUser_requests.
Qed.

Lemma done_selection_then_digest_witness :
  let s :=
    toggle_all Samples.E_dated 7 ["World News"; "Crypto"] initial_store in
  JsMap.get 7 (selectionSession s) = Some ["World News"; "Crypto"]
  /\ JsSet.size ["World News"; "Crypto"] <> 0
  /\ requests (trace_of (done_selection Samples.E_dated 7 s))
     = [feedUrl "World News"; feedUrl "Crypto"].
Proof.
  cbv zeta.
  set (s := toggle_all Samples.E_dated 7 ["World News"; "Crypto"]
              initial_store).
  assert (Hg : JsMap.get 7 (selectionSession s)
               = Some ["World News"; "Crypto"]) by reflexivity.
  assert (Hsz : JsSet.size ["World News"; "Crypto"] <> 0) by discriminate.
  split; [exact Hg|]. split; [exact Hsz|].
  destruct (@done_selection_then_digest Samples.E_dated 7 s _ Hg Hsz)
    as [_ Hok].
  destruct (Hok eq_refl) as [_ Hreq]. exact (Hreq eq_refl).
Defined.
